(** * caddy-docker-proxy: the synchronisation engine of [plugin/loader.go]

    A shallow embedding of [DockerLoader]: the event listener and its
    debounce flag, the timer-driven [update] (generate, diff, adapt,
    distribute) and the per-server push [updateServer].

    The Docker client, the Caddyfile generator, the Caddyfile adapter and
    the HTTP client are collaborators outside the file; every call to one
    of them is answered by a [World] record.  Calls to the zap logger are
    left out: they do not touch the loader. *)

From Stdlib Require Import ZArith String List Lia.
From Stdlib.Strings Require Import Byte.
From stdpp Require Import base tactics option list relations gmap strings.

Local Open Scope string_scope.
Local Open Scope list_scope.
Local Open Scope Z_scope.
Local Open Scope stdpp_scope.

(** ** Go values *)

(** A Go [[]byte]: [None] is the nil slice, [Some l] a slice holding [l]. *)
Definition GoBytes : Type := option (list byte).

Definition bytes_content (b : GoBytes) : list byte := default [] b.

#[global] Instance byte_eq_dec : EqDecision byte := Byte.byte_eq_dec.

(** [bytes.Equal]: same length and same bytes; a nil argument is
    equivalent to an empty slice. *)
Definition bytes_Equal (a b : GoBytes) : bool :=
  bool_decide (bytes_content a = bytes_content b).

Definition bytes_of (s : string) : GoBytes := Some (list_byte_of_string s).

(** Go's [error] values are opaque to the loader, which only tests them
    against nil. *)
Definition error : Type := string.

Inductive result (A : Type) : Type :=
| Ok (a : A)
| Err (e : error).
Arguments Ok {A} a.
Arguments Err {A} e.

Definition wrap64 (z : Z) : Z := (z + 2 ^ 63) mod 2 ^ 64 - 2 ^ 63.

(** [time.Duration] counts nanoseconds. *)
Definition Duration : Type := Z.
Definition Millisecond : Duration := 1000000.
Definition Second : Duration := 1000 * Millisecond.

(** ** The two concurrent maps *)

Module StringInt64CMap.
(** Modelled from the spec: the type [StringInt64CMap] (the Concurrent
    Version Map) is declared outside [loader.go].  The spec gives it as
    a thread-safe mapping from server address to an integer version
    supporting get/set/delete, each operation atomic, where an address
    never stored reads as the lowest version 0. *)
Definition Get (m : gmap string Z) (k : string) : Z := default 0 (m !! k).
Definition Set_ (k : string) (v : Z) (m : gmap string Z) : gmap string Z :=
  <[k := v]> m.
Definition Delete (k : string) (m : gmap string Z) : gmap string Z :=
  delete k m.
End StringInt64CMap.

Module StringBoolCMap.
(** Modelled from the spec: the type [StringBoolCMap] (the Concurrent
    Busy Map) is declared outside [loader.go].  The spec gives it as a
    thread-safe mapping from server address to a boolean in-flight flag
    supporting get/set/delete, each operation atomic, where an address
    with no entry reads as not in flight. *)
Definition Get (m : gmap string bool) (k : string) : bool :=
  default false (m !! k).
Definition Set_ (k : string) (v : bool) (m : gmap string bool)
  : gmap string bool := <[k := v]> m.
Definition Delete (k : string) (m : gmap string bool) : gmap string bool :=
  delete k m.
End StringBoolCMap.

(** ** The loader *)

(** The one field of [config.Options] the engine reads. *)
Record Options : Type := { PollingInterval : Duration }.

(** [*time.Timer]: [None] is the nil pointer before [Start]; [Some d] a
    timer whose single pending deadline was last armed with delay [d]. *)
Definition Timer : Type := option Duration.

Record DockerLoader : Type := {
  options : Options;
  initialized : bool;
  timer : Timer;
  skipEvents : bool;
  lastCaddyfile : GoBytes;
  lastJSONConfig : GoBytes;
  lastVersion : Z;
  serversVersions : gmap string Z;
  serversUpdating : gmap string bool;
}.

Definition set_initialized (b : bool) (l : DockerLoader) : DockerLoader :=
  {| options := options l; initialized := b; timer := timer l;
     skipEvents := skipEvents l; lastCaddyfile := lastCaddyfile l;
     lastJSONConfig := lastJSONConfig l; lastVersion := lastVersion l;
     serversVersions := serversVersions l;
     serversUpdating := serversUpdating l |}.

Definition set_timer (t : Timer) (l : DockerLoader) : DockerLoader :=
  {| options := options l; initialized := initialized l; timer := t;
     skipEvents := skipEvents l; lastCaddyfile := lastCaddyfile l;
     lastJSONConfig := lastJSONConfig l; lastVersion := lastVersion l;
     serversVersions := serversVersions l;
     serversUpdating := serversUpdating l |}.

Definition set_skipEvents (b : bool) (l : DockerLoader) : DockerLoader :=
  {| options := options l; initialized := initialized l; timer := timer l;
     skipEvents := b; lastCaddyfile := lastCaddyfile l;
     lastJSONConfig := lastJSONConfig l; lastVersion := lastVersion l;
     serversVersions := serversVersions l;
     serversUpdating := serversUpdating l |}.

Definition set_lastCaddyfile (c : GoBytes) (l : DockerLoader) : DockerLoader :=
  {| options := options l; initialized := initialized l; timer := timer l;
     skipEvents := skipEvents l; lastCaddyfile := c;
     lastJSONConfig := lastJSONConfig l; lastVersion := lastVersion l;
     serversVersions := serversVersions l;
     serversUpdating := serversUpdating l |}.

Definition set_lastJSONConfig (c : GoBytes) (l : DockerLoader) : DockerLoader :=
  {| options := options l; initialized := initialized l; timer := timer l;
     skipEvents := skipEvents l; lastCaddyfile := lastCaddyfile l;
     lastJSONConfig := c; lastVersion := lastVersion l;
     serversVersions := serversVersions l;
     serversUpdating := serversUpdating l |}.

Definition set_lastVersion (v : Z) (l : DockerLoader) : DockerLoader :=
  {| options := options l; initialized := initialized l; timer := timer l;
     skipEvents := skipEvents l; lastCaddyfile := lastCaddyfile l;
     lastJSONConfig := lastJSONConfig l; lastVersion := v;
     serversVersions := serversVersions l;
     serversUpdating := serversUpdating l |}.

Definition set_serversVersions (m : gmap string Z) (l : DockerLoader)
  : DockerLoader :=
  {| options := options l; initialized := initialized l; timer := timer l;
     skipEvents := skipEvents l; lastCaddyfile := lastCaddyfile l;
     lastJSONConfig := lastJSONConfig l; lastVersion := lastVersion l;
     serversVersions := m;
     serversUpdating := serversUpdating l |}.

Definition set_serversUpdating (m : gmap string bool) (l : DockerLoader)
  : DockerLoader :=
  {| options := options l; initialized := initialized l; timer := timer l;
     skipEvents := skipEvents l; lastCaddyfile := lastCaddyfile l;
     lastJSONConfig := lastJSONConfig l; lastVersion := lastVersion l;
     serversVersions := serversVersions l;
     serversUpdating := m |}.

(** [CreateDockerLoader]: every field not listed in the composite literal
    takes its zero value. *)
Definition CreateDockerLoader (o : Options) : DockerLoader :=
  {| options := o; initialized := false; timer := None;
     skipEvents := false; lastCaddyfile := None; lastJSONConfig := None;
     lastVersion := 0; serversVersions := ∅; serversUpdating := ∅ |}.

(** ** What the loader does to the outside, and to memory others read *)

Record Request : Type := {
  Method : string;
  URL : string;
  Header : list (string * string);
  Body : GoBytes;
}.

Inductive Effect : Type :=
| TimerReset (d : Duration)            (* timer.Reset(d) *)
| SkipEventsWrite (b : bool)           (* skipEvents = b *)
| Generate                             (* generator.GenerateCaddyfile *)
| Adapt (caddyfile : GoBytes)          (* adapter.Adapt(caddyfile, nil) *)
| BusySet (server : string)            (* serversUpdating.Set(server, true) *)
| BusyDelete (server : string)         (* serversUpdating.Delete(server) *)
| HttpDo (req : Request)               (* http.DefaultClient.Do(req) *)
| VersionSet (server : string) (v : Z).  (* serversVersions.Set(server, v) *)

(** A loader action: runs on a loader, gives a value, the loader after,
    and the effects in program order. *)
Definition Run (A : Type) : Type := DockerLoader → A * DockerLoader * list Effect.

Definition ret {A} (a : A) : Run A := λ l, (a, l, []).

Definition bind {A B} (k : A → Run B) (m : Run A) : Run B :=
  λ l, let '(a, l1, fx1) := m l in
       let '(b, l2, fx2) := k a l1 in
       (b, l2, fx1 ++ fx2).

#[global] Instance Run_ret : MRet Run := @ret.
#[global] Instance Run_bind : MBind Run := @bind.

Definition get : Run DockerLoader := λ l, (l, l, []).
Definition modify (f : DockerLoader → DockerLoader) : Run unit :=
  λ l, (tt, f l, []).
Definition emit (e : Effect) : Run unit := λ l, (tt, l, [e]).

Definition value {A} (r : A * DockerLoader * list Effect) : A := r.1.1.
Definition loader {A} (r : A * DockerLoader * list Effect) : DockerLoader := r.1.2.
Definition effects {A} (r : A * DockerLoader * list Effect) : list Effect := r.2.

Fixpoint forM_ {A} (xs : list A) (f : A → Run unit) : Run unit :=
  match xs with
  | [] => ret tt
  | x :: xs' => f x ;; forM_ xs' f
  end.

(** [timer.Reset(d)]: the pending deadline is replaced.  [update] and the
    listener only run once [Start] has created the timer, so the nil timer
    is never reset. *)
Definition timer_Reset (d : Duration) : Run unit :=
  emit (TimerReset d) ;; modify (set_timer (Some d)).

Definition write_skipEvents (b : bool) : Run unit :=
  emit (SkipEventsWrite b) ;; modify (set_skipEvents b).

(** ** Start *)

(** [Start]: [connect] and [ping] are the outcomes of
    [client.NewEnvClient] and [dockerClient.Ping].  On success the timer
    is created by [time.AfterFunc(0, update)]. *)
Definition Start (connect ping : option error) : Run (option error) :=
  l ← get;
  if initialized l then ret None
  else
    modify (set_initialized true);;
    match connect with
    | Some e => ret (Some e)
    | None =>
      match ping with
      | Some e => ret (Some e)
      | None => modify (set_timer (Some 0));; ret None
      end
    end.

(** ** The event listener *)

Record DockerEvent : Type := { event_Type : string; event_Action : string }.

Definition update_worthy (event : DockerEvent) : bool :=
  (String.eqb (event_Type event) "container" && String.eqb (event_Action event) "create") ||
  (String.eqb (event_Type event) "container" && String.eqb (event_Action event) "start") ||
  (String.eqb (event_Type event) "container" && String.eqb (event_Action event) "stop") ||
  (String.eqb (event_Type event) "container" && String.eqb (event_Action event) "die") ||
  (String.eqb (event_Type event) "container" && String.eqb (event_Action event) "destroy") ||
  (String.eqb (event_Type event) "service" && String.eqb (event_Action event) "create") ||
  (String.eqb (event_Type event) "service" && String.eqb (event_Action event) "update") ||
  (String.eqb (event_Type event) "service" && String.eqb (event_Action event) "remove") ||
  (String.eqb (event_Type event) "config" && String.eqb (event_Action event) "create") ||
  (String.eqb (event_Type event) "config" && String.eqb (event_Action event) "remove").

(** One turn of the [select] loop of [listenEvents] on
    [case event := <-eventsChan]. *)
Definition onEvent (event : DockerEvent) : Run unit :=
  l ← get;
  if skipEvents l then ret tt
  else if update_worthy event then
    write_skipEvents true;;
    timer_Reset (100 * Millisecond)
  else ret tt.

(** [listenEvents] on the events received before the error channel
    delivers: the loop body once per event, in order of arrival.  An
    [update] that starts between two of them is not part of it. *)
Definition listenEvents (events : list DockerEvent) : Run unit :=
  forM_ events onEvent.


(** ** The collaborators *)

(** [caddy.Config] as far as [addAdminListen] touches it: the [Admin]
    pointer, and everything else ([C]).  Of [caddy.AdminConfig] only
    [Listen] is named; [D] stands for its other fields. *)
Record AdminConfig {D : Type} : Type := { Listen : string; admin_other : D }.
Record Config {C D : Type} : Type :=
  { Admin : option (@AdminConfig D); config_other : C }.

(** What [http.DefaultClient.Do] followed by [ioutil.ReadAll] on the
    response body can give. *)
Inductive HttpResult : Type :=
| TransportError (e : error)
| Response (StatusCode : Z) (body : result GoBytes).

(** The answers of the collaborators during one [update]:
    [generator.GenerateCaddyfile], [adapter.Adapt] (configuration,
    warnings, error) and the HTTP client. *)
Record World : Type := {
  GenerateCaddyfile : GoBytes * list string;
  adapter_Adapt : GoBytes → GoBytes * list string * option error;
  Do : Request → HttpResult;
}.

(** [encoding/json] on [caddy.Config] and the URL parsing inside
    [http.NewRequest] belong to Go's libraries; the engine is written
    against this interface.  [admin_zero] is the zero value of the fields
    of [caddy.AdminConfig] other than [Listen]. *)
Class GoLibrary (C D : Type) : Type := {
  admin_zero : D;
  json_Unmarshal : GoBytes → result (@Config C D);
  json_Marshal : @Config C D → result GoBytes;
  url_Parse : string → option error;
}.

(** ** Distribution *)

Section Engine.
Context `{GoLibrary C D}.

Definition addAdminListen (configJSON : GoBytes) (listen : string)
  : result GoBytes :=
  match json_Unmarshal configJSON with
  | Err e => Err e
  | Ok config =>
    json_Marshal
      {| Admin := Some {| Listen := listen; admin_other := admin_zero |};
         config_other := config_other config |}
  end.

(** [http.NewRequest] with a method that is a valid token: fails only
    when the URL does not parse. *)
Definition http_NewRequest (method url : string) (body : GoBytes)
  : result Request :=
  match url_Parse url with
  | Some e => Err e
  | None => Ok {| Method := method; URL := url; Header := []; Body := body |}
  end.

Definition Header_Set (key val : string) (req : Request) : Request :=
  {| Method := Method req; URL := URL req;
     Header := (key, val) ::
               List.filter (λ kv, negb (String.eqb kv.1 key)) (Header req);
     Body := Body req |}.

(** Lines 221-234 of [updateServer]: the request for [server], from the
    structured configuration stored in the loader. *)
Definition push_request (l : DockerLoader) (server : string)
  : result Request :=
  let url := "http://" +:+ server +:+ ":2019/load" in
  match addAdminListen (lastJSONConfig l) ("tcp/" +:+ server +:+ ":2019") with
  | Err e => Err e
  | Ok postBody =>
    match http_NewRequest "POST" url postBody with
    | Err e => Err e
    | Ok req => Ok (Header_Set "Content-Type" "application/json" req)
    end
  end.

(** Lines 237-251: the three tests between the call and the record. *)
Definition push_succeeded (r : HttpResult) : bool :=
  match r with
  | TransportError _ => false
  | Response _ (Err _) => false
  | Response StatusCode (Ok _) => negb (bool_decide (StatusCode ≠ 200))
  end.

Definition busy_Set (server : string) : Run unit :=
  emit (BusySet server);;
  modify (λ l, set_serversUpdating
                 (StringBoolCMap.Set_ server true (serversUpdating l)) l).

Definition busy_Delete (server : string) : Run unit :=
  emit (BusyDelete server);;
  modify (λ l, set_serversUpdating
                 (StringBoolCMap.Delete server (serversUpdating l)) l).

Definition versions_Set (server : string) (version : Z) : Run unit :=
  emit (VersionSet server version);;
  modify (λ l, set_serversVersions
                 (StringInt64CMap.Set_ server version (serversVersions l)) l).

(** [updateServer] run from entry to return with no other task in
    between.  The deferred [Delete] is the last action of every path
    that registered it. *)
Definition updateServer (w : World) (server : string) : Run unit :=
  l ← get;
  if StringBoolCMap.Get (serversUpdating l) server then ret tt
  else
    busy_Set server;;
    (l ← get;
     let version := lastVersion l in
     if bool_decide (StringInt64CMap.Get (serversVersions l) server >= version)
     then ret tt
     else
       match push_request l server with
       | Err _ => ret tt
       | Ok req =>
         emit (HttpDo req);;
         if push_succeeded (Do w req)
         then versions_Set server version
         else ret tt
       end);;
    busy_Delete server.

(** ** Rebuild *)

(** Lines 159-188 of [update], up to the fan-out: [None] is the early
    [return false], [Some servers] hands [controlledServers] on. *)
Definition update_diff (w : World) : Run (option (list string)) :=
  l ← get;
  timer_Reset (PollingInterval (options l));;
  write_skipEvents false;;
  emit Generate;;
  let '(caddyfile, controlledServers) := GenerateCaddyfile w in
  l ← get;
  let caddyfileChanged := negb (bytes_Equal (lastCaddyfile l) caddyfile) in
  modify (set_lastCaddyfile caddyfile);;
  if caddyfileChanged then
    emit (Adapt caddyfile);;
    let '(configJSON, warn, err) := adapter_Adapt w caddyfile in
    match err with
    | Some _ => ret None
    | None =>
      modify (set_lastJSONConfig configJSON);;
      modify (λ l, set_lastVersion (wrap64 (lastVersion l + 1)) l);;
      ret (Some controlledServers)
    end
  else ret (Some controlledServers).

(** [update], the pushes taken one after the other in the order of
    [controlledServers] (one of the schedules of the goroutines). *)
Definition update (w : World) : Run bool :=
  r ← update_diff w;
  match r with
  | None => ret false
  | Some controlledServers =>
    forM_ controlledServers (updateServer w);;
    ret true
  end.

(** ** The push, one shared-memory access at a time *)

Inductive Pc : Type :=
| AtBusyGet                              (* line 204 *)
| AtBusySet                              (* line 209 *)
| AtSnapshot                             (* line 212 *)
| AtVersionGet (version : Z)             (* line 215 *)
| AtBuild (version : Z)                  (* lines 221-234 *)
| AtSend (version : Z) (req : Request)   (* lines 235-251 *)
| AtVersionSet (version : Z)             (* line 253 *)
| AtBusyDelete                           (* the deferred Delete *)
| Returned.

Record Task : Type := { task_server : string; task_pc : Pc }.

Definition spawn (server : string) : Task :=
  {| task_server := server; task_pc := AtBusyGet |}.

Definition goto (t : Task) (pc : Pc) : Task :=
  {| task_server := task_server t; task_pc := pc |}.

Definition task_step (do : Request → HttpResult) (t : Task) : Run Task :=
  let server := task_server t in
  match task_pc t with
  | AtBusyGet =>
    l ← get;
    if StringBoolCMap.Get (serversUpdating l) server
    then ret (goto t Returned)
    else ret (goto t AtBusySet)
  | AtBusySet => busy_Set server;; ret (goto t AtSnapshot)
  | AtSnapshot => l ← get; ret (goto t (AtVersionGet (lastVersion l)))
  | AtVersionGet version =>
    l ← get;
    if bool_decide (StringInt64CMap.Get (serversVersions l) server >= version)
    then ret (goto t AtBusyDelete)
    else ret (goto t (AtBuild version))
  | AtBuild version =>
    l ← get;
    match push_request l server with
    | Err _ => ret (goto t AtBusyDelete)
    | Ok req => ret (goto t (AtSend version req))
    end
  | AtSend version req =>
    emit (HttpDo req);;
    if push_succeeded (do req)
    then ret (goto t (AtVersionSet version))
    else ret (goto t AtBusyDelete)
  | AtVersionSet version =>
    versions_Set server version;; ret (goto t AtBusyDelete)
  | AtBusyDelete => busy_Delete server;; ret (goto t Returned)
  | Returned => ret t
  end.

(** A task holds the busy flag from its [Set] to its deferred [Delete]. *)
Definition in_flight (t : Task) : bool :=
  match task_pc t with
  | AtBusyGet | AtBusySet | Returned => false
  | _ => true
  end.

(** [n] steps of one task with nothing in between. *)
Fixpoint task_run (n : nat) (do : Request → HttpResult) (t : Task) : Run Task :=
  match n with
  | O => ret t
  | S n' => t' ← task_step do t; task_run n' do t'
  end.

(** The goroutines of the fan-out: any task that has not returned may
    take the next step, with whatever the network answers. *)
Inductive pool_step
  : DockerLoader * list Task → list Effect → DockerLoader * list Task → Prop :=
| pool_step_task l ts i t do :
    ts !! i = Some t →
    task_pc t ≠ Returned →
    pool_step (l, ts) (effects (task_step do t l))
              (loader (task_step do t l), <[i := value (task_step do t l)]> ts).

Inductive pool_steps
  : DockerLoader * list Task → list Effect → DockerLoader * list Task → Prop :=
| pool_steps_refl σ : pool_steps σ [] σ
| pool_steps_step σ1 fx1 σ2 fx2 σ3 :
    pool_step σ1 fx1 σ2 → pool_steps σ2 fx2 σ3 →
    pool_steps σ1 (fx1 ++ fx2) σ3.

(** The goroutines run in a given order: each number in [order] lets
    the task at that position take its next step. *)
Fixpoint schedule (order : list nat) (do : Request → HttpResult)
         (l : DockerLoader) (ts : list Task)
  : DockerLoader * list Task * list Effect :=
  match order with
  | [] => (l, ts, [])
  | i :: order' =>
    match ts !! i with
    | None => schedule order' do l ts
    | Some t =>
      match task_pc t with
      | Returned => schedule order' do l ts
      | _ =>
        let '(t', l', fx) := task_step do t l in
        let '(l'', ts'', fx') := schedule order' do l' (<[i := t']> ts) in
        (l'', ts'', fx ++ fx')
      end
    end
  end.

Definition all_returned (ts : list Task) : Prop :=
  Forall (λ t, task_pc t = Returned) ts.

(** One [update] under any schedule of its own goroutines: the result,
    the loader when it returns, and the effects of this [update] in the
    order they happened.  Nothing else runs meanwhile: neither the
    listener nor another [update]; [play] below lets them. *)
Inductive update_run (w : World) (l : DockerLoader)
  : bool → DockerLoader → list Effect → Prop :=
| update_run_abort :
    value (update_diff w l) = None →
    update_run w l false (loader (update_diff w l)) (effects (update_diff w l))
| update_run_fanout servers l' ts fx :
    value (update_diff w l) = Some servers →
    pool_steps (loader (update_diff w l), spawn <$> servers) fx (l', ts) →
    all_returned ts →
    update_run w l true l' (effects (update_diff w l) ++ fx).

End Engine.

(** ** The engine as a whole *)

(** What can happen to a running loader: the listener receives a Docker
    event, or the timer fires and [update] runs to its return. *)
Inductive Stimulus : Type :=
| Received (event : DockerEvent)
| TimerFired (w : World).

Section System.
Context `{GoLibrary C D}.

(** The loader once the timer is re-armed, the flag cleared and the
    generated text stored. *)
Definition after_generate (caddyfile : GoBytes) (l : DockerLoader)
  : DockerLoader :=
  set_lastCaddyfile caddyfile
    (set_skipEvents false
       (set_timer (Some (PollingInterval (options l))) l)).

Definition prologue (l : DockerLoader) : list Effect :=
  [TimerReset (PollingInterval (options l)); SkipEventsWrite false; Generate].

(** The generated text differs from the previous one and the adapter
    accepts it. *)
Definition accepted (w : World) (l : DockerLoader) : bool :=
  negb (bytes_Equal (lastCaddyfile l) (GenerateCaddyfile w).1) &&
  bool_decide ((adapter_Adapt w (GenerateCaddyfile w).1).2 = None).

Definition react (s : Stimulus) : Run unit :=
  match s with
  | Received event => onEvent event
  | TimerFired w => update w;; ret tt
  end.

Definition run (ss : list Stimulus) : Run unit := forM_ ss react.

(** The same with the goroutines of every [update] scheduled freely,
    one [update] still returning before the next event or [update]. *)
Inductive engine_step (l : DockerLoader)
  : list Effect → DockerLoader → Prop :=
| engine_event event :
    engine_step l (effects (onEvent event l)) (loader (onEvent event l))
| engine_update w b l' fx :
    update_run w l b l' fx → engine_step l fx l'.

Inductive engine_steps : DockerLoader → list Effect → DockerLoader → Prop :=
| engine_steps_refl l : engine_steps l [] l
| engine_steps_step l1 fx1 l2 fx2 l3 :
    engine_step l1 fx1 l2 → engine_steps l2 fx2 l3 →
    engine_steps l1 (fx1 ++ fx2) l3.

(** Rebuild after rebuild, the listener handling events before each. *)
Inductive rebuilds_run
  : list World → DockerLoader → list Effect → DockerLoader → Prop :=
| rebuilds_run_nil l : rebuilds_run [] l [] l
| rebuilds_run_cons w ws events l b l1 fx1 l2 fx2 :
    update_run w (loader (listenEvents events l)) b l1 fx1 →
    rebuilds_run ws l1 fx2 l2 →
    rebuilds_run (w :: ws) l
                 (effects (listenEvents events l) ++ fx1 ++ fx2) l2.

(** A loader as the timer callback or the listener can find it: created,
    started, and then driven by events and timer fires. *)
Definition started (o : Options) : DockerLoader :=
  loader (Start None None (CreateDockerLoader o)).


End System.

(** ** Everything running side by side *)

(** [loader.go] holds no lock: the timer starts [update] in a goroutine of
    its own at every fire, the listener is another goroutine, and each
    push is one more.  A state is the loader with the pushes started so
    far; a move lets one goroutine go on:
    - [PushStep i do]: the push at position [i] takes its next step, the
      network answering with [do] if the step is the call;
    - [ListenerStep event]: the listener handles one event;
    - [UpdateStart w]: an [update] started by the timer runs lines 159-188 and
      starts its pushes, whether or not the pushes of an earlier [update]
      have returned. *)
Inductive Move : Type :=
| PushStep (i : nat) (do : Request → HttpResult)
| ListenerStep (event : DockerEvent)
| UpdateStart (w : World).

Section Concurrent.
Context `{GoLibrary C D}.

Definition move (m : Move) (σ : DockerLoader * list Task)
  : DockerLoader * list Task * list Effect :=
  match m with
  | PushStep i do =>
    match σ.2 !! i with
    | None => (σ, [])
    | Some t =>
      match task_pc t with
      | Returned => (σ, [])
      | _ => let '(t', l', fx) := task_step do t σ.1 in
             (l', <[i := t']> σ.2, fx)
      end
    end
  | ListenerStep event =>
    let '(_, l', fx) := onEvent event σ.1 in (l', σ.2, fx)
  | UpdateStart w =>
    let '(started, l', fx) := update_diff w σ.1 in
    (l', σ.2 ++ (spawn <$> default [] started), fx)
  end.

Fixpoint play (moves : list Move) (σ : DockerLoader * list Task)
  : DockerLoader * list Task * list Effect :=
  match moves with
  | [] => (σ, [])
  | m :: moves' =>
    let '(σ1, fx1) := move m σ in
    let '(σ2, fx2) := play moves' σ1 in
    (σ2, fx1 ++ fx2)
  end.

End Concurrent.

(** ** Reading a trace *)

Definition rebuilds (fx : list Effect) : nat :=
  length (List.filter (λ e, match e with Generate => true | _ => false end) fx).

Definition adapter_calls (fx : list Effect) : list GoBytes :=
  omap (λ e, match e with Adapt c => Some c | _ => None end) fx.

Definition network_calls (fx : list Effect) : list Request :=
  omap (λ e, match e with HttpDo r => Some r | _ => None end) fx.

Definition version_writes (fx : list Effect) : list (string * Z) :=
  omap (λ e, match e with VersionSet server v => Some (server, v) | _ => None end)
       fx.

Definition debounce_arms (fx : list Effect) : nat :=
  length (List.filter (λ e, match e with
                       | TimerReset d => bool_decide (d = 100 * Millisecond)
                       | _ => false
                       end) fx).

(** ** A small instance to run the engine on *)

Module Demo.
(** A stand-in for the JSON codec: the document minus its admin block is
    kept as raw bytes; the empty input does not parse. *)
Definition unmarshal (b : GoBytes) : result (@Config (list byte) unit) :=
  match bytes_content b with
  | [] => Err "unexpected end of JSON input"
  | bs => Ok {| Admin := None; config_other := bs |}
  end.

Definition marshal (c : @Config (list byte) unit) : result GoBytes :=
  Ok (Some (list_byte_of_string
              (match Admin c with
               | Some a => "admin.listen=" +:+ Listen a +:+ ";"
               | None => ""
               end) ++ config_other c)).

#[global] Instance library : GoLibrary (list byte) unit :=
  {| admin_zero := tt;
     json_Unmarshal := unmarshal;
     json_Marshal := marshal;
     url_Parse := λ _, None |}.

Definition opts : Options := {| PollingInterval := 30 * Second |}.

(** The adapter rejects the text [bad] and turns any other text [t]
    into [json:t]. *)
Definition adapt (c : GoBytes) : GoBytes * list string * option error :=
  if bytes_Equal c (bytes_of "bad")
  then (None, [], Some "adapt: parse error")
  else (Some (list_byte_of_string "json:" ++ bytes_content c), [], None).

Definition world (text : GoBytes) (servers : list string)
           (do : Request → HttpResult) : World :=
  {| GenerateCaddyfile := (text, servers);
     adapter_Adapt := adapt;
     Do := do |}.

Definition ok200 : Request → HttpResult := λ _, Response 200 (Ok (Some [])).
Definition refused : Request → HttpResult := λ _, TransportError "connection refused".

Definition fleet : list string := ["10.0.0.1"; "10.0.0.2"].

(** The request [updateServer] sends to [server] when the stored
    configuration is the adapter's output for [text]. *)
Definition request (server : string) (text : GoBytes) : Request :=
  {| Method := "POST";
     URL := "http://" +:+ server +:+ ":2019/load";
     Header := [("Content-Type", "application/json")];
     Body := Some (list_byte_of_string
                     ("admin.listen=tcp/" +:+ server +:+ ":2019;")
                   ++ bytes_content (adapt text).1.1) |}.

Definition container_start : DockerEvent :=
  {| event_Type := "container"; event_Action := "start" |}.
Definition container_die : DockerEvent :=
  {| event_Type := "container"; event_Action := "die" |}.
Definition service_update : DockerEvent :=
  {| event_Type := "service"; event_Action := "update" |}.

(** The loader after [n] accepted rebuilds whose texts alternate between
    [a] and [b], no server being controlled. *)
Definition text (n : Z) : GoBytes :=
  if Z.odd n then bytes_of "a" else bytes_of "b".

Definition at_version (n : Z) : DockerLoader :=
  {| options := opts; initialized := true;
     timer := Some (PollingInterval opts); skipEvents := false;
     lastCaddyfile := text n; lastJSONConfig := (adapt (text n)).1.1;
     lastVersion := n; serversVersions := ∅; serversUpdating := ∅ |}.
End Demo.

(** ** An instance whose admin block has a second setting *)

Module AdminDemo.
(** A stand-in for the JSON codec that keeps, beside [listen], one more
    setting of the admin block, [enforce_origin].  A document is the byte
    [N] and the rest (no admin block), or the byte [A], the setting as
    [0] or [1], the listen address up to [;], and the rest. *)
Fixpoint split_at (sep : byte) (bs : list byte)
  : option (list byte * list byte) :=
  match bs with
  | [] => None
  | b :: bs' =>
    if decide (b = sep) then Some ([], bs')
    else match split_at sep bs' with
         | Some (before, after) => Some (b :: before, after)
         | None => None
         end
  end.

Definition unmarshal (b : GoBytes) : result (@Config (list byte) bool) :=
  match bytes_content b with
  | [] => Err "unexpected end of JSON input"
  | tag :: more =>
    if decide (tag = "N"%byte)
    then Ok {| Admin := None; config_other := more |}
    else match more with
         | [] => Err "unexpected end of JSON input"
         | flag :: more' =>
           match split_at ";"%byte more' with
           | None => Err "unexpected end of JSON input"
           | Some (listen, rest) =>
             Ok {| Admin := Some {| Listen := string_of_list_byte listen;
                                    admin_other := bool_decide (flag = "1"%byte) |};
                   config_other := rest |}
           end
         end
  end.

Definition marshal (c : @Config (list byte) bool) : result GoBytes :=
  Ok (Some match Admin c with
           | None => "N"%byte :: config_other c
           | Some a =>
             "A"%byte :: (if admin_other a then "1"%byte else "0"%byte)
             :: list_byte_of_string (Listen a) ++ ";"%byte :: config_other c
           end).

Definition library : GoLibrary (list byte) bool :=
  {| admin_zero := false;
     json_Unmarshal := unmarshal;
     json_Marshal := marshal;
     url_Parse := λ _, None |}.

(** A configuration whose admin block listens on [localhost:2019] and
    enforces the origin. *)
Definition stored : @Config (list byte) bool :=
  {| Admin := Some {| Listen := "localhost:2019"; admin_other := true |};
     config_other := list_byte_of_string "apps" |}.

Definition stored_json : GoBytes :=
  match marshal stored with Ok b => b | Err _ => None end.

(** The adapter turns every text into [stored_json]. *)
Definition world (servers : list string) : World :=
  {| GenerateCaddyfile := (bytes_of "a", servers);
     adapter_Adapt := λ _, (stored_json, [], None);
     Do := Demo.ok200 |}.
End AdminDemo.

(** ** Schedules with goroutines side by side *)

Module Overlap.
Definition server : string := "10.0.0.1".

Definition first_text : World := Demo.world (bytes_of "a") [] Demo.ok200.
Definition same_text : World := Demo.world (bytes_of "a") [server] Demo.ok200.
Definition new_text : World := Demo.world (bytes_of "b") [server] Demo.ok200.

(** On a started loader the first [update] accepts a text while no server
    is listed yet (version 1).  Then the server appears: an [update]
    starts a push to it, and the timer fires again before that [update]
    has returned, so a second push to the same server runs beside the
    first.  Each reads the busy flag before the other sets it, and both go
    on to build their request for version 1.  The first is refused and
    returns; the second is still waiting for its answer when the timer
    fires once more: that [update] gets a new text, takes the version to
    2, and its push delivers and records 2. *)
Definition newer_push_records : list Move :=
  [UpdateStart first_text;
   UpdateStart same_text;                              (* push 0 *)
   UpdateStart same_text;                              (* push 1 *)
   PushStep 0 Demo.refused; PushStep 1 Demo.ok200;     (* line 204, twice *)
   PushStep 0 Demo.refused; PushStep 1 Demo.ok200;     (* line 209, twice *)
   PushStep 0 Demo.refused; PushStep 1 Demo.ok200;     (* line 212 *)
   PushStep 0 Demo.refused; PushStep 1 Demo.ok200;     (* line 215 *)
   PushStep 0 Demo.refused; PushStep 1 Demo.ok200;     (* lines 221-234 *)
   PushStep 0 Demo.refused;                            (* line 235: refused *)
   PushStep 0 Demo.refused;                            (* deferred Delete *)
   UpdateStart new_text;                               (* push 2 *)
   PushStep 2 Demo.ok200; PushStep 2 Demo.ok200; PushStep 2 Demo.ok200;
   PushStep 2 Demo.ok200; PushStep 2 Demo.ok200; PushStep 2 Demo.ok200;
   PushStep 2 Demo.ok200].                             (* line 253: 2 *)

(** Then push 1 gets its 200 and records its snapshot. *)
Definition older_push_records : list Move :=
  [PushStep 1 Demo.ok200;                              (* line 235: 200 *)
   PushStep 1 Demo.ok200].                             (* line 253: 1 *)

(** Its deferred [Delete], and that of push 2. *)
Definition pushes_return : list Move :=
  [PushStep 1 Demo.ok200; PushStep 2 Demo.ok200].

(** An [update] whose only push is still running when the listener
    handles a qualifying event. *)
Definition event_during_update : list Move :=
  [UpdateStart new_text;
   PushStep 0 Demo.ok200;
   ListenerStep Demo.container_start;
   PushStep 0 Demo.ok200; PushStep 0 Demo.ok200; PushStep 0 Demo.ok200;
   PushStep 0 Demo.ok200; PushStep 0 Demo.ok200; PushStep 0 Demo.ok200;
   PushStep 0 Demo.ok200].

(** A world whose adapter hands back a configuration that does not
    decode. *)
Definition undecodable : World :=
  {| GenerateCaddyfile := (bytes_of "a", [server]);
     adapter_Adapt := λ _, (Some [], [], None);
     Do := Demo.ok200 |}.
End Overlap.

(** * Properties *)

(** ** Vocabulary of the statements *)

(** What a push never touches: everything but the two maps. *)
Definition frame (l l' : DockerLoader) : Prop :=
  options l' = options l ∧ initialized l' = initialized l ∧
  timer l' = timer l ∧ skipEvents l' = skipEvents l ∧
  lastCaddyfile l' = lastCaddyfile l ∧
  lastJSONConfig l' = lastJSONConfig l ∧ lastVersion l' = lastVersion l.

(** The recorded version of every server is at least what it was. *)
Definition versions_le (l l' : DockerLoader) : Prop :=
  ∀ server, StringInt64CMap.Get (serversVersions l) server
            ≤ StringInt64CMap.Get (serversVersions l') server.

(** The effects a push can have. *)
Definition push_effect (e : Effect) : Prop :=
  match e with
  | BusySet _ | BusyDelete _ | HttpDo _ | VersionSet _ _ => True
  | _ => False
  end.

(** Every server already has the current version on record. *)
Definition up_to_date (l : DockerLoader) : Prop :=
  ∀ server, StringInt64CMap.Get (serversVersions l) server >= lastVersion l.

(** What the listener never touches: everything but the flag and the
    timer. *)
Definition listener_frame (l l' : DockerLoader) : Prop :=
  options l' = options l ∧ initialized l' = initialized l ∧
  lastCaddyfile l' = lastCaddyfile l ∧
  lastJSONConfig l' = lastJSONConfig l ∧ lastVersion l' = lastVersion l ∧
  serversVersions l' = serversVersions l ∧
  serversUpdating l' = serversUpdating l.

(** The effects of a rebuild once its first three are done. *)
Definition after_prologue (e : Effect) : Prop :=
  match e with
  | TimerReset _ | SkipEventsWrite _ | Generate => False
  | _ => True
  end.

(** A loader in which no configuration has been accepted yet. *)
Definition nothing_accepted (l : DockerLoader) : Prop :=
  bytes_content (lastCaddyfile l) = [] ∧ lastVersion l = 0 ∧
  serversVersions l = ∅.

(** The loader when a push that set the busy flag of [server] returns. *)
Definition unflagged (server : string) (l : DockerLoader) : DockerLoader :=
  set_serversUpdating
    (StringBoolCMap.Delete server
       (StringBoolCMap.Set_ server true (serversUpdating l))) l.

Section TaskInvariant.
Context `{GoLibrary C D}.

(** What holds of a task of the current fan-out at each program point:
    its snapshot is the current [lastVersion]; past the version test the
    recorded version of its server does not exceed the snapshot; a
    request waiting to be sent was built from the stored configuration. *)
Definition task_ok (l : DockerLoader) (t : Task) : Prop :=
  match task_pc t with
  | AtVersionGet v => v = lastVersion l
  | AtBuild v | AtVersionSet v =>
    v = lastVersion l ∧
    StringInt64CMap.Get (serversVersions l) (task_server t) ≤ v
  | AtSend v req =>
    v = lastVersion l ∧
    StringInt64CMap.Get (serversVersions l) (task_server t) ≤ v ∧
    push_request l (task_server t) = Ok req
  | _ => True
  end.

(** A task that has not got past the version test. *)
Definition task_idle (l : DockerLoader) (t : Task) : Prop :=
  match task_pc t with
  | AtVersionGet v => v = lastVersion l
  | AtBuild _ | AtSend _ _ | AtVersionSet _ => False
  | _ => True
  end.

Definition pool_ok (σ : DockerLoader * list Task) : Prop :=
  Forall (task_ok σ.1) σ.2.

(** A request as [updateServer] builds it for [server] from the
    structured configuration [configJSON]. *)
Definition is_push_request (configJSON : GoBytes) (server : string)
           (req : Request) : Prop :=
  Method req = "POST" ∧
  URL req = "http://" +:+ server +:+ ":2019/load" ∧
  Header req = [("Content-Type", "application/json")] ∧
  ∃ config,
    json_Unmarshal configJSON = Ok config ∧
    json_Marshal
      {| Admin := Some {| Listen := "tcp/" +:+ server +:+ ":2019";
                          admin_other := admin_zero |};
         config_other := config_other config |} = Ok (Body req).
End TaskInvariant.

(** No busy flag is set. *)
Definition flags_clear (l : DockerLoader) : Prop :=
  ∀ server, StringBoolCMap.Get (serversUpdating l) server = false.

(** Every entry of the busy map belongs to a push in flight. *)
Definition busy_held (σ : DockerLoader * list Task) : Prop :=
  ∀ server,
    is_Some (serversUpdating σ.1 !! server) →
    ∃ i t, σ.2 !! i = Some t ∧ task_server t = server ∧ in_flight t = true.



(** Two worlds that give the same answers, warnings of the adapter apart. *)
Definition same_but_warnings (w w' : World) : Prop :=
  GenerateCaddyfile w = GenerateCaddyfile w' ∧
  (∀ c, (adapter_Adapt w c).1.1 = (adapter_Adapt w' c).1.1 ∧
        (adapter_Adapt w c).2 = (adapter_Adapt w' c).2) ∧
  (∀ req, Do w req = Do w' req).


Arguments bytes_Equal : simpl never.
Arguments wrap64 : simpl never.
Arguments push_request : simpl never.
Arguments push_succeeded : simpl never.
Arguments StringInt64CMap.Get : simpl never.
Arguments StringBoolCMap.Get : simpl never.

Ltac run_unfold :=
  unfold mbind, Run_bind, bind, mret, Run_ret, ret, get, modify, emit,
    timer_Reset, write_skipEvents, busy_Set, busy_Delete, versions_Set,
    value, loader, effects in *.
Ltac run_simpl := repeat progress (run_unfold; cbn in *).

(** Case analysis on the program point of a task and on the tests of
    the step it takes. *)
Ltac task_cases t :=
  let s := fresh "server" in
  let pc := fresh "pc" in
  destruct t as [s pc]; unfold task_step; destruct pc; run_simpl;
  repeat case_match; simplify_eq; cbn in *.

(** [Hin : x ∈ [a; b; ...]] with [x] none of the elements. *)
Ltac not_in_list Hin :=
  repeat (apply elem_of_cons in Hin as [? | Hin]; [done |]);
  apply elem_of_nil in Hin.

Section Properties.
Context `{GoLibrary C D}.

(** ** The rebuild before the fan-out *)

Lemma update_diff_unchanged w l :
  bytes_Equal (lastCaddyfile l) (GenerateCaddyfile w).1 = true →
  update_diff w l =
    (Some (GenerateCaddyfile w).2, after_generate (GenerateCaddyfile w).1 l,
     prologue l).
Proof.
  intros Heq. unfold update_diff.
  destruct (GenerateCaddyfile w) as [caddyfile servers] eqn:Hgen.
  run_simpl. rewrite Heq. reflexivity.
Qed.

Lemma update_diff_rejected w l e :
  bytes_Equal (lastCaddyfile l) (GenerateCaddyfile w).1 = false →
  (adapter_Adapt w (GenerateCaddyfile w).1).2 = Some e →
  update_diff w l =
    (None, after_generate (GenerateCaddyfile w).1 l,
     prologue l ++ [Adapt (GenerateCaddyfile w).1]).
Proof.
  intros Hne Herr. unfold update_diff.
  destruct (GenerateCaddyfile w) as [caddyfile servers] eqn:Hgen.
  run_simpl. rewrite Hne. cbn.
  destruct (adapter_Adapt w caddyfile) as [[configJSON warn] err].
  cbn in *. subst err. reflexivity.
Qed.

Lemma update_diff_accepted w l :
  bytes_Equal (lastCaddyfile l) (GenerateCaddyfile w).1 = false →
  (adapter_Adapt w (GenerateCaddyfile w).1).2 = None →
  update_diff w l =
    (Some (GenerateCaddyfile w).2,
     set_lastVersion (wrap64 (lastVersion l + 1))
       (set_lastJSONConfig (adapter_Adapt w (GenerateCaddyfile w).1).1.1
          (after_generate (GenerateCaddyfile w).1 l)),
     prologue l ++ [Adapt (GenerateCaddyfile w).1]).
Proof.
  intros Hne Herr. unfold update_diff.
  destruct (GenerateCaddyfile w) as [caddyfile servers] eqn:Hgen.
  run_simpl. rewrite Hne. cbn.
  destruct (adapter_Adapt w caddyfile) as [[configJSON warn] err].
  cbn in *. subst err. reflexivity.
Qed.

(** ** One step of a push *)

Lemma frame_refl l : frame l l.
Proof. by repeat split. Qed.

Lemma frame_trans l1 l2 l3 : frame l1 l2 → frame l2 l3 → frame l1 l3.
Proof. unfold frame. intros ? ?. destruct_and!. repeat split; congruence. Qed.

Lemma versions_le_refl l : versions_le l l.
Proof. intros s. lia. Qed.

Lemma versions_le_trans l1 l2 l3 :
  versions_le l1 l2 → versions_le l2 l3 → versions_le l1 l3.
Proof. intros H1 H2 s. specialize (H1 s). specialize (H2 s). lia. Qed.

Lemma Get_Set_version (m : gmap string Z) k v k' :
  StringInt64CMap.Get (StringInt64CMap.Set_ k v m) k' =
  if decide (k = k') then v else StringInt64CMap.Get m k'.
Proof.
  unfold StringInt64CMap.Get, StringInt64CMap.Set_.
  rewrite lookup_insert. by case_decide.
Qed.

Lemma push_request_frame l l' server :
  lastJSONConfig l' = lastJSONConfig l →
  push_request l' server = push_request l server.
Proof. unfold push_request. by intros ->. Qed.

Lemma task_step_server do t l :
  task_server (value (task_step do t l)) = task_server t.
Proof.
  task_cases t; done.
Qed.

Lemma task_step_frame do t l : frame l (loader (task_step do t l)).
Proof.
  task_cases t; by repeat split.
Qed.

Lemma task_step_effects do t l :
  Forall push_effect (effects (task_step do t l)).
Proof. task_cases t; repeat constructor. Qed.

Lemma task_step_ok do t l :
  task_ok l t → task_ok (loader (task_step do t l)) (value (task_step do t l)).
Proof.
  unfold task_ok.
  task_cases t; intros; destruct_and?; simplify_eq; try done.
  (* line 215: the test fails, the push goes on *)
  rewrite bool_decide_eq_false in *. split; [done | lia].
Qed.

Lemma task_step_mono do t l :
  task_ok l t → versions_le l (loader (task_step do t l)).
Proof.
  unfold task_ok, versions_le.
  task_cases t; intros; destruct_and?; simplify_eq; try lia.
  rewrite Get_Set_version. case_decide; subst; lia.
Qed.

Lemma task_step_other do t l t' :
  task_ok l t → task_ok l t' → task_ok (loader (task_step do t l)) t'.
Proof.
  intros Ht Ht'.
  pose proof (task_step_frame do t l) as (_ & _ & _ & _ & _ & Hjson & Hver).
  pose proof (task_step_mono do t l Ht) as Hle.
  assert (∀ server,
    StringInt64CMap.Get (serversVersions (loader (task_step do t l))) server
      ≤ lastVersion l ∨
    StringInt64CMap.Get (serversVersions (loader (task_step do t l))) server
      = StringInt64CMap.Get (serversVersions l) server) as Hsv.
  { clear Ht' Hjson Hver Hle. unfold task_ok in Ht.
    task_cases t; intros; destruct_and?; simplify_eq; try by right.
    rewrite Get_Set_version. case_decide; [left; lia | by right]. }
  unfold task_ok in *. destruct (task_pc t'); try done;
    rewrite ?Hver, ?(push_request_frame _ _ _ Hjson);
    destruct_and?; repeat split; try done;
    destruct (Hsv (task_server t')) as [? | ->]; lia.
Qed.

Lemma task_step_request do t l req :
  task_ok l t →
  req ∈ network_calls (effects (task_step do t l)) →
  push_request l (task_server t) = Ok req.
Proof.
  unfold task_ok, network_calls.
  task_cases t; intros Hok Hin; try (by not_in_list Hin).
  all: apply list_elem_of_singleton in Hin as ->; apply Hok.
Qed.

(** ** The goroutines of one fan-out *)

Lemma pool_step_inv σ fx σ' :
  pool_ok σ → pool_step σ fx σ' →
  pool_ok σ' ∧ frame σ.1 σ'.1 ∧ versions_le σ.1 σ'.1 ∧
  task_server <$> σ'.2 = task_server <$> σ.2 ∧
  Forall push_effect fx ∧
  ∀ req, req ∈ network_calls fx →
         ∃ server, server ∈ task_server <$> σ.2 ∧
                   push_request σ.1 server = Ok req.
Proof.
  intros Hok Hstep. destruct Hstep as [l ts i t do Hi Hpc].
  unfold pool_ok in *. cbn in *.
  assert (task_ok l t) as Ht by (by eapply Forall_lookup_1).
  split_and!.
  - apply Forall_insert; [| by apply task_step_ok].
    eapply Forall_impl; [exact Hok |]. intros t'. by apply task_step_other.
  - apply task_step_frame.
  - by apply task_step_mono.
  - rewrite list_fmap_insert, task_step_server.
    apply list_insert_id. by rewrite list_lookup_fmap, Hi.
  - apply task_step_effects.
  - intros req Hreq. exists (task_server t). split.
    + apply list_elem_of_fmap. exists t. split; [done |].
      by eapply list_elem_of_lookup_2.
    + by eapply task_step_request.
Qed.

Lemma network_calls_app fx1 fx2 :
  network_calls (fx1 ++ fx2) = network_calls fx1 ++ network_calls fx2.
Proof. apply omap_app. Qed.

Lemma adapter_calls_app fx1 fx2 :
  adapter_calls (fx1 ++ fx2) = adapter_calls fx1 ++ adapter_calls fx2.
Proof. apply omap_app. Qed.

Lemma rebuilds_app fx1 fx2 : rebuilds (fx1 ++ fx2) = (rebuilds fx1 + rebuilds fx2)%nat.
Proof. unfold rebuilds. by rewrite List.filter_app, length_app. Qed.

Lemma debounce_arms_app fx1 fx2 :
  debounce_arms (fx1 ++ fx2) = (debounce_arms fx1 + debounce_arms fx2)%nat.
Proof. unfold debounce_arms. by rewrite List.filter_app, length_app. Qed.

Lemma push_effects_quiet fx :
  Forall push_effect fx →
  adapter_calls fx = [] ∧ rebuilds fx = 0%nat ∧ debounce_arms fx = 0%nat ∧
  ∀ e, e ∈ fx → push_effect e.
Proof.
  intros Hfx. split_and!; [| | | by apply Forall_forall];
    induction Hfx as [| e fx He _ IH]; try done; by destruct e.
Qed.

Lemma pool_steps_inv σ fx σ' :
  pool_ok σ → pool_steps σ fx σ' →
  pool_ok σ' ∧ frame σ.1 σ'.1 ∧ versions_le σ.1 σ'.1 ∧
  task_server <$> σ'.2 = task_server <$> σ.2 ∧
  Forall push_effect fx ∧
  ∀ req, req ∈ network_calls fx →
         ∃ server, server ∈ task_server <$> σ.2 ∧
                   push_request σ.1 server = Ok req.
Proof.
  intros Hok Hsteps. induction Hsteps as [σ | σ1 fx1 σ2 fx2 σ3 Hstep _ IH].
  - split_and!; [done | apply frame_refl | apply versions_le_refl | done
                 | constructor | ].
    intros req Hreq. by apply elem_of_nil in Hreq.
  - destruct (pool_step_inv _ _ _ Hok Hstep)
      as (Hok2 & Hfr & Hle & Hsrv & Hfx & Hreq).
    destruct (IH Hok2) as (Hok3 & Hfr' & Hle' & Hsrv' & Hfx' & Hreq').
    split_and!; [done | by eapply frame_trans | by eapply versions_le_trans
                 | congruence | by apply Forall_app | ].
    intros req. rewrite network_calls_app, elem_of_app. intros [Hin | Hin].
    + by apply Hreq.
    + destruct (Hreq' req Hin) as (server & Hs & Hpush).
      exists server. split; [congruence |].
      rewrite <- Hpush. symmetry. apply push_request_frame. apply Hfr.
Qed.

Lemma spawned_ok l (servers : list string) : pool_ok (l, spawn <$> servers).
Proof. unfold pool_ok. cbn. apply Forall_fmap, Forall_true. by intros. Qed.

Lemma spawned_servers (servers : list string) :
  task_server <$> (spawn <$> servers) = servers.
Proof. rewrite <- list_fmap_compose. apply list_fmap_id. Qed.

(** ** One push from entry to return *)

Lemma updateServer_cases w server l :
  updateServer w server l =
  if StringBoolCMap.Get (serversUpdating l) server then (tt, l, [])
  else if bool_decide
            (StringInt64CMap.Get (serversVersions l) server >= lastVersion l)
  then (tt, unflagged server l, [BusySet server; BusyDelete server])
  else match push_request l server with
       | Err _ => (tt, unflagged server l, [BusySet server; BusyDelete server])
       | Ok req =>
         if push_succeeded (Do w req)
         then (tt,
               unflagged server
                 (set_serversVersions
                    (StringInt64CMap.Set_ server (lastVersion l)
                       (serversVersions l)) l),
               [BusySet server; HttpDo req;
                VersionSet server (lastVersion l); BusyDelete server])
         else (tt, unflagged server l,
               [BusySet server; HttpDo req; BusyDelete server])
       end.
Proof.
  unfold updateServer, unflagged, push_request.
  repeat (run_simpl; simplify_eq; try done; case_match).
Qed.

(** ** [updateServer] and [update] are runs of the goroutines *)

Lemma insert_middle (pre post : list Task) t t' :
  <[length pre := t']> (pre ++ t :: post) = pre ++ t' :: post.
Proof. rewrite insert_app_r_alt by lia. by rewrite Nat.sub_diag. Qed.

Lemma task_run_steps n do t l pre post :
  pool_steps (l, pre ++ t :: post)
             (effects (task_run n do t l))
             (loader (task_run n do t l),
              pre ++ value (task_run n do t l) :: post).
Proof.
  revert t l. induction n as [| n IH]; intros t l.
  - apply pool_steps_refl.
  - cbn [task_run]. unfold mbind, Run_bind, bind.
    destruct (task_step do t l) as [[t1 l1] fx1] eqn:Hstep.
    specialize (IH t1 l1).
    destruct (task_run n do t1 l1) as [[t2 l2] fx2] eqn:Hrun.
    unfold value, loader, effects in *. cbn in *.
    assert (task_pc t = Returned ∨ task_pc t ≠ Returned) as [Hret | Hret]
      by (destruct (task_pc t); (by left) || (by right)).
    + destruct t as [s pc]. cbn in Hret. subst pc.
      unfold task_step in Hstep. cbn in Hstep. unfold ret in Hstep.
      by simplify_eq.
    + eapply pool_steps_step; [| exact IH].
      pose proof (pool_step_task l (pre ++ t :: post) (length pre) t do) as Hp.
      rewrite Hstep, insert_middle in Hp. apply Hp; [| done].
      by apply list_lookup_middle.
Qed.

Lemma updateServer_task_run w server l :
  task_run 8 (Do w) (spawn server) l =
  (goto (spawn server) Returned, loader (updateServer w server l),
   effects (updateServer w server l)).
Proof.
  rewrite updateServer_cases.
  unfold task_run, task_step, spawn, goto, unflagged, push_request.
  destruct (StringBoolCMap.Get (serversUpdating l) server) eqn:Hbusy;
    run_simpl; rewrite Hbusy; [done |].
  destruct (bool_decide (StringInt64CMap.Get (serversVersions l) server
                         >= lastVersion l)) eqn:Hcurrent;
    run_simpl; rewrite ?Hcurrent; [done |].
  destruct (addAdminListen (lastJSONConfig l) ("tcp/" +:+ server +:+ ":2019"))
    as [postBody | e] eqn:Hbody; run_simpl; rewrite ?Hbody; run_simpl;
    [| done].
  destruct (http_NewRequest "POST" ("http://" +:+ server +:+ ":2019/load")
                            postBody) as [req | e] eqn:Hreq;
    run_simpl; rewrite ?Hreq; run_simpl; [| done].
  destruct (push_succeeded _); by run_simpl.
Qed.

Lemma pool_steps_trans σ1 fx1 σ2 fx2 σ3 :
  pool_steps σ1 fx1 σ2 → pool_steps σ2 fx2 σ3 → pool_steps σ1 (fx1 ++ fx2) σ3.
Proof.
  intros H12 H23. induction H12 as [σ | σa fxa σb fxb σc Hstep _ IH]; [done |].
  rewrite <- app_assoc. eapply pool_steps_step; [exact Hstep | by apply IH].
Qed.

Lemma fanout_steps w servers l pre :
  pool_steps (l, pre ++ (spawn <$> servers))
             (effects (forM_ servers (updateServer w) l))
             (loader (forM_ servers (updateServer w) l),
              pre ++ ((λ s, goto (spawn s) Returned) <$> servers)).
Proof.
  revert l pre. induction servers as [| server servers IH]; intros l pre.
  - apply pool_steps_refl.
  - cbn [forM_ fmap list_fmap]. unfold mbind, Run_bind, bind.
    pose proof (task_run_steps 8 (Do w) (spawn server) l pre
                               (spawn <$> servers)) as Hfirst.
    rewrite updateServer_task_run in Hfirst.
    destruct (updateServer w server l) as [[[] l1] fx1].
    specialize (IH l1 (pre ++ [goto (spawn server) Returned])).
    destruct (forM_ servers (updateServer w) l1) as [[[] l2] fx2].
    unfold value, loader, effects in *. cbn in *.
    rewrite <- !app_assoc in IH. cbn in IH.
    by eapply pool_steps_trans.
Qed.

(** The sequential [update] is one of the runs: every [update] returns. *)
Lemma update_is_a_run w l :
  update_run w l (value (update w l)) (loader (update w l))
             (effects (update w l)).
Proof.
  unfold update, mbind, Run_bind, bind.
  destruct (update_diff w l) as [[[servers |] l1] fx1] eqn:Hdiff.
  - pose proof (fanout_steps w servers l1 []) as Hsteps.
    destruct (forM_ servers (updateServer w) l1) as [[[] l2] fx2].
    unfold value, loader, effects in *. cbn in *.
    rewrite app_nil_r.
    pose proof (update_run_fanout w l servers l2
                  ((λ s, goto (spawn s) Returned) <$> servers) fx2) as Hrun.
    rewrite Hdiff in Hrun. apply Hrun; [done | exact Hsteps |].
    apply Forall_fmap, Forall_true. by intros.
  - pose proof (update_run_abort w l) as Hrun.
    rewrite Hdiff in Hrun. cbn. rewrite app_nil_r. by apply Hrun.
Qed.

(** ** Every run of [update] *)

Lemma update_run_cases w l b l' fx :
  update_run w l b l' fx →
  let text := (GenerateCaddyfile w).1 in
  ∃ pushes,
    Forall push_effect pushes ∧ versions_le l l' ∧
    (∀ req, req ∈ network_calls pushes →
            ∃ server, server ∈ (GenerateCaddyfile w).2 ∧
                      push_request l' server = Ok req) ∧
    ((bytes_Equal (lastCaddyfile l) text = true ∧ b = true ∧
      fx = prologue l ++ pushes ∧ frame (after_generate text l) l')
     ∨ (bytes_Equal (lastCaddyfile l) text = false ∧
        is_Some (adapter_Adapt w text).2 ∧ b = false ∧
        fx = prologue l ++ [Adapt text] ∧ pushes = [] ∧
        l' = after_generate text l)
     ∨ (bytes_Equal (lastCaddyfile l) text = false ∧
        (adapter_Adapt w text).2 = None ∧ b = true ∧
        fx = prologue l ++ [Adapt text] ++ pushes ∧
        frame (set_lastVersion (wrap64 (lastVersion l + 1))
                 (set_lastJSONConfig (adapter_Adapt w text).1.1
                    (after_generate text l))) l')).
Proof.
  intros Hrun text.
  destruct (bytes_Equal (lastCaddyfile l) text) eqn:Heq;
    [| destruct (adapter_Adapt w text).2 as [e |] eqn:Herr].
  - (* unchanged *)
    pose proof (update_diff_unchanged w l Heq) as Hdiff.
    destruct Hrun as [Hnone | servers l' ts pushes Hsome Hsteps _];
      rewrite Hdiff in *; unfold value, loader, effects in *; cbn in *;
      [done |]. simplify_eq.
    destruct (pool_steps_inv _ _ _ (spawned_ok _ _) Hsteps)
      as (_ & Hfr & Hle & _ & Hfx & Hreq). cbn in *.
    exists pushes. split_and!; [done | exact Hle | | left; by split_and!].
    intros req Hin. destruct (Hreq req Hin) as (server & Hs & Hpush).
    rewrite spawned_servers in Hs. exists server. split; [done |].
    rewrite <- Hpush. apply push_request_frame. apply Hfr.
  - (* rejected by the adapter *)
    pose proof (update_diff_rejected w l e Heq Herr) as Hdiff.
    destruct Hrun as [Hnone | servers l' ts pushes Hsome Hsteps _];
      rewrite Hdiff in *; unfold value, loader, effects in *; cbn in *;
      [| done].
    exists []. split_and!; [constructor | intros s; cbn; lia | | ].
    + intros req Hin. by apply elem_of_nil in Hin.
    + right. left. by split_and!.
  - (* accepted *)
    pose proof (update_diff_accepted w l Heq Herr) as Hdiff.
    destruct Hrun as [Hnone | servers l' ts pushes Hsome Hsteps _];
      rewrite Hdiff in *; unfold value, loader, effects in *; cbn in *;
      [done |]. simplify_eq.
    destruct (pool_steps_inv _ _ _ (spawned_ok _ _) Hsteps)
      as (_ & Hfr & Hle & _ & Hfx & Hreq). cbn in *.
    exists pushes. split_and!; [done | exact Hle | | right; right; by split_and!].
    intros req Hin. destruct (Hreq req Hin) as (server & Hs & Hpush).
    rewrite spawned_servers in Hs. exists server. split; [done |].
    rewrite <- Hpush. apply push_request_frame. apply Hfr.
Qed.

(** ** The listener *)

Lemma onEvent_cases event l :
  (skipEvents l = false ∧ update_worthy event = true ∧
   onEvent event l =
     (tt, set_timer (Some (100 * Millisecond)) (set_skipEvents true l),
      [SkipEventsWrite true; TimerReset (100 * Millisecond)]))
  ∨ ((skipEvents l = true ∨ update_worthy event = false) ∧
     onEvent event l = (tt, l, [])).
Proof.
  unfold onEvent. run_simpl.
  destruct (skipEvents l) eqn:Hskip; [right; by split; [left |] |].
  destruct (update_worthy event) eqn:Hworthy; [left | right]; run_simpl.
  - by split_and!.
  - split; [by right | done].
Qed.

Lemma onEvent_frame event l : listener_frame l (loader (onEvent event l)).
Proof.
  destruct (onEvent_cases event l) as [(_ & _ & ->) | (_ & ->)];
    by repeat split.
Qed.

Lemma listenEvents_frame events l :
  listener_frame l (loader (listenEvents events l)).
Proof.
  unfold listenEvents. revert l.
  induction events as [| event events IH]; intros l; [by repeat split |].
  cbn [forM_]. unfold mbind, Run_bind, bind.
  pose proof (onEvent_frame event l) as H1.
  destruct (onEvent event l) as [[[] l1] fx1].
  specialize (IH l1).
  destruct (forM_ events onEvent l1) as [[[] l2] fx2].
  unfold loader, listener_frame in *. cbn in *.
  destruct_and!. repeat split; congruence.
Qed.

(** ** The claims on the rebuild *)


Lemma prologue_calls l :
  adapter_calls (prologue l) = [] ∧ network_calls (prologue l) = [].
Proof. done. Qed.



(** C8 (as amended): each time the timer fires, [update] first re-arms
    the timer with the polling interval, then clears the flag, and only
    then calls the generator; nothing that [update] does after that
    (adapter call, pushes) re-arms the timer or writes the flag.  The
    listener runs beside [update] and may set the flag and re-arm the
    timer meanwhile (see [listener_runs_during_an_update]). *)
Theorem C8_rearm_and_clear_come_first w l b l' fx :
  update_run w l b l' fx →
  ∃ rest,
    fx = TimerReset (PollingInterval (options l))
         :: SkipEventsWrite false :: Generate :: rest ∧
    Forall after_prologue rest.
Proof.
  intros Hrun.
  assert (∀ pushes, Forall push_effect pushes → Forall after_prologue pushes)
    as Hpush.
  { intros pushes Hp. eapply Forall_impl; [exact Hp | by intros []]. }
  destruct (update_run_cases _ _ _ _ _ Hrun)
    as (pushes & Hfx & _ & _ &
        [(_ & _ & -> & _)
        | [(_ & _ & _ & -> & _) | (_ & _ & _ & -> & _)]]).
  - eexists; split; [reflexivity | by apply Hpush].
  - eexists; split; [reflexivity | by repeat constructor].
  - eexists; split; [reflexivity |].
    constructor; [done | by apply Hpush].
Qed.

(** ** The version counter *)


Lemma update_run_version w l b l' fx :
  update_run w l b l' fx →
  lastVersion l' = (if accepted w l then wrap64 (lastVersion l + 1)
                    else lastVersion l) ∧
  rebuilds fx = 1%nat.
Proof.
  intros Hrun. unfold accepted.
  destruct (update_run_cases _ _ _ _ _ Hrun)
    as (pushes & Hfx & _ & _ &
        [(-> & _ & -> & Hfr)
        | [(-> & Herr & _ & -> & _ & ->) | (-> & -> & _ & -> & Hfr)]]);
    destruct (push_effects_quiet _ Hfx) as (_ & Hreb & _).
  - split; [apply Hfr |]. by rewrite rebuilds_app, Hreb.
  - destruct Herr as [e ->]. done.
  - split; [apply Hfr |]. by rewrite !rebuilds_app, Hreb.
Qed.




(** ** Debounce *)

Lemma listenEvents_suppressed events l :
  skipEvents l = true → listenEvents events l = (tt, l, []).
Proof.
  intros Hskip. unfold listenEvents.
  induction events as [| event events IH]; [done |].
  cbn [forM_]. unfold mbind, Run_bind, bind.
  destruct (onEvent_cases event l) as [(? & _) | (_ & ->)]; [congruence |].
  by rewrite IH.
Qed.

Lemma forM__app {A} (xs ys : list A) (f : A → Run unit) l :
  effects (forM_ (xs ++ ys) f l) =
    effects (forM_ xs f l) ++ effects (forM_ ys f (loader (forM_ xs f l))) ∧
  loader (forM_ (xs ++ ys) f l) = loader (forM_ ys f (loader (forM_ xs f l))).
Proof.
  revert l. induction xs as [| x xs IH]; intros l; [done |].
  cbn [forM_ app]. unfold mbind, Run_bind, bind.
  destruct (f x l) as [[[] l1] fx1]. specialize (IH l1).
  destruct (forM_ (xs ++ ys) f l1) as [[[] l2] fx2].
  destruct (forM_ xs f l1) as [[[] l3] fx3].
  unfold effects, loader in *. cbn in *. destruct IH as [-> ->].
  by rewrite app_assoc.
Qed.

Lemma run_received events l : run (Received <$> events) l = listenEvents events l.
Proof.
  unfold run, listenEvents. revert l.
  induction events as [| event events IH]; intros l; [done |].
  cbn [forM_ fmap list_fmap react]. unfold mbind, Run_bind, bind.
  destruct (onEvent event l) as [[[] l1] fx1]. by rewrite <- IH.
Qed.

Lemma update_rebuilds w l : rebuilds (effects (update w l)) = 1%nat.
Proof. by destruct (update_run_version _ _ _ _ _ (update_is_a_run w l)). Qed.

(** C7: a burst of events that reaches the listener while the flag is
    clear and starts with a qualifying event sets the flag and arms the
    timer with 100 ms once, at that first event; every later event of the
    burst, qualifying or not, is dropped with no effect (an event that
    finds the flag set never re-arms the timer).  The one pending
    deadline then fires one rebuild for the whole burst. *)
Theorem C7_one_rebuild_per_burst event events w l :
  skipEvents l = false →
  update_worthy event = true →
  let burst := listenEvents (event :: events) l in
  effects burst = [SkipEventsWrite true; TimerReset (100 * Millisecond)] ∧
  loader burst = loader (onEvent event l) ∧
  skipEvents (loader burst) = true ∧
  timer (loader burst) = Some (100 * Millisecond) ∧
  debounce_arms (effects burst) = 1%nat ∧
  (∀ event' l', skipEvents l' = true → onEvent event' l' = (tt, l', [])) ∧
  rebuilds (effects (run ((Received <$> event :: events) ++ [TimerFired w]) l))
    = 1%nat.
Proof.
  intros Hclear Hworthy burst.
  assert (burst =
          (tt, set_timer (Some (100 * Millisecond)) (set_skipEvents true l),
           [SkipEventsWrite true; TimerReset (100 * Millisecond)])) as Hburst.
  { unfold burst, listenEvents. cbn [forM_]. unfold mbind, Run_bind, bind.
    destruct (onEvent_cases event l) as [(_ & _ & ->) | ([? | ?] & _)];
      [| congruence ..].
    pose proof (listenEvents_suppressed events
                  (set_timer (Some (100 * Millisecond)) (set_skipEvents true l))
                  eq_refl) as Hrest.
    unfold listenEvents in Hrest. by rewrite Hrest. }
  assert (onEvent event l =
          (tt, set_timer (Some (100 * Millisecond)) (set_skipEvents true l),
           [SkipEventsWrite true; TimerReset (100 * Millisecond)])) as Hfirst.
  { destruct (onEvent_cases event l) as [(_ & _ & ->) | ([? | ?] & _)];
      [done | congruence ..]. }
  split_and!; try by rewrite Hburst, ?Hfirst.
  - intros event' l' Hset.
    destruct (onEvent_cases event' l') as [(? & _) | (_ & ->)];
      [congruence | done].
  - unfold run.
    destruct (forM__app (Received <$> event :: events) [TimerFired w] react l)
      as [-> _].
    rewrite rebuilds_app.
    pose proof (run_received (event :: events) l) as Hrun.
    unfold run in Hrun. rewrite Hrun. fold burst. rewrite Hburst.
    cbn [forM_ react]. unfold mbind, Run_bind, bind.
    pose proof (update_rebuilds w (loader
      (tt, set_timer (Some (100 * Millisecond)) (set_skipEvents true l),
       [SkipEventsWrite true; TimerReset (100 * Millisecond)]))) as Hreb.
    destruct (update w _) as [[? ?] ?]. unfold effects in *. cbn in *.
    by rewrite !app_nil_r.
Qed.

(** ** Pushes to servers that are up to date *)

Lemma task_step_idle do t l :
  up_to_date l → task_idle l t →
  task_idle (loader (task_step do t l)) (value (task_step do t l)) ∧
  serversVersions (loader (task_step do t l)) = serversVersions l ∧
  network_calls (effects (task_step do t l)) = [].
Proof.
  unfold task_idle, up_to_date. intros Hup.
  task_cases t; intros; simplify_eq; try done.
  rewrite bool_decide_eq_false in *.
  match goal with Hlt : ¬ _ |- _ => destruct Hlt; apply Hup end.
Qed.

Lemma pool_steps_idle l ts fx l' ts' :
  up_to_date l → Forall (task_idle l) ts →
  pool_steps (l, ts) fx (l', ts') →
  serversVersions l' = serversVersions l ∧ network_calls fx = [].
Proof.
  intros Hup Hidle Hsteps.
  change (serversVersions (l', ts').1 = serversVersions (l, ts).1
          ∧ network_calls fx = []).
  change (up_to_date (l, ts).1) in Hup.
  change (Forall (task_idle (l, ts).1) (l, ts).2) in Hidle.
  generalize dependent (l', ts'). generalize dependent (l, ts).
  clear l ts l' ts'. intros σ Hup Hidle σ' Hsteps.
  induction Hsteps as [σ | σ1 fx1 σ2 fx2 σ3 Hstep _ IH]; [done |].
  destruct Hstep as [l ts i t do Hi Hpc]. cbn in *.
  assert (task_idle l t) as Ht by (by eapply Forall_lookup_1).
  destruct (task_step_idle do t l Hup Ht) as (Ht' & Hsv & Hnet).
  pose proof (task_step_frame do t l) as (_ & _ & _ & _ & _ & _ & Hv).
  destruct IH as [Hsv' Hnet'].
  - unfold up_to_date. rewrite Hsv, Hv. exact Hup.
  - apply Forall_insert; [| done].
    eapply Forall_impl; [exact Hidle |]. intros t'.
    unfold task_idle. by rewrite Hv.
  - split; [congruence |]. by rewrite network_calls_app, Hnet, Hnet'.
Qed.

(** A rebuild whose text is unchanged, on a fleet that is up to date:
    no adapter call, no network call, nothing recorded. *)
Lemma update_run_idle w l b l' fx :
  bytes_Equal (lastCaddyfile l) (GenerateCaddyfile w).1 = true →
  up_to_date l →
  update_run w l b l' fx →
  b = true ∧ adapter_calls fx = [] ∧ network_calls fx = [] ∧
  serversVersions l' = serversVersions l ∧
  frame (after_generate (GenerateCaddyfile w).1 l) l'.
Proof.
  intros Heq Hup Hrun.
  destruct (update_run_cases _ _ _ _ _ Hrun)
    as (pushes & Hfx & _ & _ &
        [(_ & -> & Hpushes & Hfr) | [(? & _) | (? & _)]]); try congruence.
  destruct (push_effects_quiet _ Hfx) as (Hquiet & _).
  pose proof (update_diff_unchanged w l Heq) as Hdiff.
  destruct Hrun as [Hnone | servers l' ts pushes' Hsome Hsteps _];
    rewrite Hdiff in *; unfold value, loader, effects in *; cbn in *;
    [done |].
  simplify_eq.
  assert (Forall (task_idle (after_generate (GenerateCaddyfile w).1 l))
                 (spawn <$> (GenerateCaddyfile w).2)) as Hidle
    by (apply Forall_fmap, Forall_true; by intros).
  assert (up_to_date (after_generate (GenerateCaddyfile w).1 l)) as Hup'
    by exact Hup.
  destruct (pool_steps_idle _ _ _ _ _ Hup' Hidle Hsteps) as [Hsv Hnet].
  split_and!; [done | | | done | done].
  - exact Hquiet.
  - exact Hnet.
Qed.

Lemma bytes_Equal_content a b :
  bytes_Equal a b = true ↔ bytes_content a = bytes_content b.
Proof. unfold bytes_Equal. apply bool_decide_eq_true. Qed.

Lemma listenEvents_calls events l :
  adapter_calls (effects (listenEvents events l)) = [] ∧
  network_calls (effects (listenEvents events l)) = [].
Proof.
  unfold listenEvents. revert l.
  induction events as [| event events IH]; intros l; [done |].
  cbn [forM_]. unfold mbind, Run_bind, bind.
  destruct (onEvent_cases event l) as [(_ & _ & ->) | (_ & ->)];
    match goal with |- context [forM_ events onEvent ?l1] =>
      specialize (IH l1); destruct (forM_ events onEvent l1) as [[[] ?] ?]
    end; exact IH.
Qed.

Lemma nothing_accepted_up_to_date l : nothing_accepted l → up_to_date l.
Proof. intros (_ & Hv & Hsv) server. rewrite Hv, Hsv. done. Qed.

Lemma rebuilds_run_empty ws l fx l' :
  Forall (λ w, bytes_content (GenerateCaddyfile w).1 = []) ws →
  nothing_accepted l →
  rebuilds_run ws l fx l' →
  nothing_accepted l' ∧ adapter_calls fx = [] ∧ network_calls fx = [].
Proof.
  intros Hws Hl Hrun. revert Hws Hl.
  induction Hrun as [l | w ws events l b l1 fx1 l2 fx2 Hupd _ IH];
    intros Hws Hl; [done |].
  apply Forall_cons in Hws as [Hw Hws].
  pose proof (listenEvents_frame events l) as (_ & _ & Hc & _ & Hv & Hsv & _).
  destruct (listenEvents_calls events l) as [Hac Hnc].
  assert (nothing_accepted (loader (listenEvents events l))) as Hl0.
  { destruct Hl as (? & ? & ?). unfold nothing_accepted. by rewrite Hc, Hv, Hsv. }
  destruct (update_run_idle _ _ _ _ _
              (proj2 (bytes_Equal_content _ _) (eq_trans (proj1 Hl0) (eq_sym Hw)))
              (nothing_accepted_up_to_date _ Hl0) Hupd)
    as (_ & Hac1 & Hnc1 & Hsv1 & Hfr).
  destruct IH as (Hl2 & Hac2 & Hnc2); [done | |].
  - destruct Hl0 as (_ & Hv0 & Hsv0), Hfr as (_ & _ & _ & _ & Hc1 & _ & Hv1).
    unfold nothing_accepted. by rewrite Hc1, Hv1, Hsv1.
  - split; [done |].
    by rewrite !adapter_calls_app, !network_calls_app, Hac, Hnc, Hac1, Hnc1,
      Hac2, Hnc2.
Qed.

(** C10: the previous text of a fresh loader is the nil slice, which
    [bytes.Equal] takes for equal to an empty text.  So as long as the
    generator gives empty text from the first rebuild on, no rebuild
    calls the adapter, [lastVersion] stays 0 and no request is sent to
    any server (each one reads as version 0, which passes the [>=] test);
    the first later rebuild with a non-empty text that the adapter
    accepts is adapted and brings the version to 1. *)
Theorem C10_empty_first_output o ws fx l :
  Forall (λ w, bytes_content (GenerateCaddyfile w).1 = []) ws →
  rebuilds_run ws (started o) fx l →
  lastCaddyfile (started o) = None ∧
  bytes_Equal (lastCaddyfile (started o)) (Some []) = true ∧
  (∀ server,
      StringInt64CMap.Get (serversVersions (started o)) server
      >= lastVersion (started o)) ∧
  adapter_calls fx = [] ∧
  network_calls fx = [] ∧
  lastVersion l = 0 ∧
  ∀ w b l' fx',
    bytes_content (GenerateCaddyfile w).1 ≠ [] →
    (adapter_Adapt w (GenerateCaddyfile w).1).2 = None →
    update_run w l b l' fx' →
    adapter_calls fx' = [(GenerateCaddyfile w).1] ∧ lastVersion l' = 1.
Proof.
  intros Hws Hrun.
  assert (nothing_accepted (started o)) as Hfresh by done.
  destruct (rebuilds_run_empty _ _ _ _ Hws Hfresh Hrun)
    as ((Hc & Hv & Hsv) & Hac & Hnc).
  split_and!; try done.
  intros w b l' fx' Htext Herr Hupd.
  assert (bytes_Equal (lastCaddyfile l) (GenerateCaddyfile w).1 = false) as Hne.
  { apply not_true_is_false. rewrite bytes_Equal_content. congruence. }
  destruct (update_run_cases _ _ _ _ _ Hupd)
    as (pushes & Hfx & _ & _ &
        [(? & _) | [(_ & [e He] & _) | (_ & _ & _ & -> & Hfr)]]);
    try congruence.
  destruct (push_effects_quiet _ Hfx) as (Hquiet & _).
  split; [by rewrite !adapter_calls_app, Hquiet |].
  destruct Hfr as (_ & _ & _ & _ & _ & _ & ->). cbn. by rewrite Hv.
Qed.

(** ** The claims on distribution *)

Lemma engine_steps_versions l fx l' : engine_steps l fx l' → versions_le l l'.
Proof.
  induction 1 as [l | l1 fx1 l2 fx2 l3 Hstep _ IH]; [apply versions_le_refl |].
  eapply versions_le_trans; [| exact IH].
  destruct Hstep as [event | w b l2 fx1 Hrun].
  - pose proof (onEvent_frame event l1) as (_ & _ & _ & _ & _ & Hsv & _).
    intros server. rewrite Hsv. lia.
  - by destruct (update_run_cases _ _ _ _ _ Hrun) as (_ & _ & Hle & _).
Qed.

(** With one [update] at a time (events, rebuilds, the pushes of each
    rebuild scheduled in any way, but no [update] started before the last
    one returned) the version recorded for a server never goes down.  A
    push taken alone sends a request only if the version it snapshots is
    strictly greater than the one recorded for its server; when the
    recorded one is greater or equal it returns with no network call and
    no change to the recorded versions.  Without that restriction the
    recorded version can go down. *)
Lemma serial_versions_never_decrease w server l0 fx l :
  engine_steps l0 fx l →
  versions_le l0 l ∧
  versions_le l (loader (updateServer w server l)) ∧
  (network_calls (effects (updateServer w server l)) ≠ [] →
   lastVersion l > StringInt64CMap.Get (serversVersions l) server) ∧
  (StringInt64CMap.Get (serversVersions l) server >= lastVersion l →
   network_calls (effects (updateServer w server l)) = [] ∧
   serversVersions (loader (updateServer w server l)) = serversVersions l).
Proof.
  intros Hsteps. split; [by eapply engine_steps_versions |].
  rewrite updateServer_cases.
  destruct (StringBoolCMap.Get (serversUpdating l) server);
    [by split_and!; [apply versions_le_refl | ..] |].
  case_bool_decide as Hge; [by split_and!; [by intros ?; unfold loader; cbn; lia | ..] |].
  destruct (push_request l server) as [req | e];
    [| split_and!; [by intros ?; unfold loader; cbn; lia | done | intros; lia]].
  destruct (push_succeeded (Do w req)).
  - split_and!; [| intros; lia | intros; lia].
    intros server'. unfold loader. cbn. rewrite Get_Set_version.
    case_decide; subst; lia.
  - split_and!; [by intros ?; unfold loader; cbn; lia | intros; lia | intros; lia].
Qed.

Lemma push_succeeded_200 r :
  push_succeeded r = true ↔ ∃ body, r = Response 200 (Ok body).
Proof.
  unfold push_succeeded. destruct r as [e | code [body | e]].
  - split; [done | by intros [? ?]].
  - rewrite negb_true_iff, bool_decide_eq_false. split.
    + intros Hcode. exists body. f_equal. lia.
    + intros [? ?]. simplify_eq. lia.
  - split; [done | by intros [? ?]].
Qed.

(** C5: a push that gets as far as the network makes exactly one call.
    It records the snapshotted version for its server if and only if
    the call gives a response whose body is read and whose status is
    200; on a transport error, an unreadable body or any other status
    the recorded versions are left as they were. *)
Theorem C5_recorded_iff_status_200 w server l req :
  StringBoolCMap.Get (serversUpdating l) server = false →
  StringInt64CMap.Get (serversVersions l) server < lastVersion l →
  push_request l server = Ok req →
  let r := updateServer w server l in
  network_calls (effects r) = [req] ∧
  (VersionSet server (lastVersion l) ∈ effects r
   ↔ ∃ body, Do w req = Response 200 (Ok body)) ∧
  match Do w req with
  | TransportError _ => serversVersions (loader r) = serversVersions l
  | Response _ (Err _) => serversVersions (loader r) = serversVersions l
  | Response StatusCode (Ok _) =>
    if bool_decide (StatusCode = 200)
    then serversVersions (loader r)
         = <[server := lastVersion l]> (serversVersions l)
    else serversVersions (loader r) = serversVersions l
  end.
Proof.
  intros Hfree Hbehind Hreq r. subst r.
  rewrite updateServer_cases, Hfree, Hreq.
  rewrite bool_decide_eq_false_2 by lia.
  pose proof (push_succeeded_200 (Do w req)) as H200.
  destruct (push_succeeded (Do w req)) eqn:Hok.
  - destruct (proj1 H200 eq_refl) as [body Hbody]. rewrite Hbody.
    split_and!; [done | | done].
    split; [by exists body |]. intros _.
    unfold effects. cbn. by repeat constructor.
  - split_and!; [done | |].
    + split; [| intros Hbody; apply H200 in Hbody; done].
      unfold effects. cbn. intros Hin. by not_in_list Hin.
    + unfold push_succeeded in Hok.
      destruct (Do w req) as [e | code [body | e]]; try done.
      destruct (decide (code = 200)) as [-> | Hcode].
      * rewrite bool_decide_eq_false_2 in Hok by lia. done.
      * by rewrite bool_decide_eq_false_2.
Qed.

Lemma push_request_shape l server req :
  push_request l server = Ok req →
  is_push_request (lastJSONConfig l) server req.
Proof.
  unfold push_request, addAdminListen, http_NewRequest, is_push_request.
  intros Hreq.
  destruct (json_Unmarshal (lastJSONConfig l)) as [config | e]; [| done].
  destruct (json_Marshal _) as [postBody | e] eqn:Hbody; [| done].
  destruct (url_Parse _); [done |]. simplify_eq. cbn.
  split_and!; try done. by exists config.
Qed.

(** C6 (as amended): every request a rebuild sends goes to one of the
    servers the generator listed, and is a POST to
    [http://<server>:2019/load] whose only header is
    [Content-Type: application/json] and whose body is the stored
    structured configuration decoded, its [Admin] block replaced as a
    whole by one that listens on [tcp/<server>:2019] and has every other
    setting at its zero value, and encoded again.  The same holds of a
    single push taken alone. *)
Theorem C6_request_per_server w l b l' fx req :
  update_run w l b l' fx →
  req ∈ network_calls fx →
  (∃ server, server ∈ (GenerateCaddyfile w).2 ∧
             is_push_request (lastJSONConfig l') server req) ∧
  ∀ w0 server l0 req0,
    req0 ∈ network_calls (effects (updateServer w0 server l0)) →
    is_push_request (lastJSONConfig l0) server req0.
Proof.
  intros Hrun Hin. split.
  - destruct (update_run_cases _ _ _ _ _ Hrun)
      as (pushes & _ & _ & Hreq & Hcases).
    assert (req ∈ network_calls pushes) as Hin'.
    { destruct Hcases as [(_ & _ & -> & _)
                         | [(_ & _ & _ & -> & _) | (_ & _ & _ & -> & _)]];
        rewrite ?network_calls_app in Hin; try exact Hin.
      cbn in Hin. by not_in_list Hin. }
    destruct (Hreq req Hin') as (server & Hs & Hpush).
    exists server. split; [done | by apply push_request_shape].
  - intros w0 server l0 req0. rewrite updateServer_cases.
    repeat case_match; unfold effects, network_calls; cbn; intros Hin0;
      try (by not_in_list Hin0).
    all: apply list_elem_of_singleton in Hin0 as ->;
      by apply push_request_shape.
Qed.

(** ** The busy flag *)

Lemma schedule_steps order do l ts :
  pool_steps (l, ts) (schedule order do l ts).2
             ((schedule order do l ts).1.1, (schedule order do l ts).1.2).
Proof.
  revert l ts. induction order as [| i order IH]; intros l ts; cbn [schedule].
  - apply pool_steps_refl.
  - destruct (ts !! i) as [t |] eqn:Hi; [| apply IH].
    assert (task_pc t = Returned ∨ task_pc t ≠ Returned) as [Hret | Hret]
      by (destruct (task_pc t); (by left) || (by right)).
    { rewrite Hret. apply IH. }
    pose proof (pool_step_task l ts i t do Hi Hret) as Hstep.
    destruct (task_step do t l) as [[t' l'] fx] eqn:Hts.
    specialize (IH l' (<[i := t']> ts)).
    destruct (schedule order do l' (<[i := t']> ts)) as [[l'' ts''] fx'].
    unfold value, loader, effects in *. cbn in *.
    destruct (task_pc t); try done; by eapply pool_steps_step.
Qed.

(** A push that finds the flag of its server set returns at once: no
    effect, nothing written. *)
Lemma updateServer_busy w server l :
  StringBoolCMap.Get (serversUpdating l) server = true →
  updateServer w server l = (tt, l, []).
Proof. intros Hbusy. by rewrite updateServer_cases, Hbusy. Qed.

(** A push that finds the flag clear sets it first and deletes it last,
    on every path to its return. *)
Lemma updateServer_flag w server l :
  StringBoolCMap.Get (serversUpdating l) server = false →
  ∃ middle,
    effects (updateServer w server l)
      = BusySet server :: middle ++ [BusyDelete server] ∧
    Forall (λ e, e ≠ BusySet server ∧ e ≠ BusyDelete server) middle ∧
    StringBoolCMap.Get (serversUpdating (loader (updateServer w server l)))
                       server = false.
Proof.
  intros Hfree. rewrite updateServer_cases, Hfree.
  assert (∀ m : gmap string bool,
            StringBoolCMap.Get
              (StringBoolCMap.Delete server (StringBoolCMap.Set_ server true m))
              server = false) as Hdel.
  { intros m. unfold StringBoolCMap.Get, StringBoolCMap.Delete.
    by rewrite lookup_delete_eq. }
  repeat case_match; unfold effects, loader; cbn;
    match goal with
    | |- ∃ _, [_; _] = _ ∧ _ => exists []
    | |- ∃ _, [_; ?e; _] = _ ∧ _ => exists [e]
    | |- ∃ _, [_; ?e1; ?e2; _] = _ ∧ _ => exists [e1; e2]
    end;
    (split_and!; [done | by repeat constructor | done]).
Qed.

(** Two pushes to one server, each having read the flag before the other
    wrote it: both set it. *)
Lemma pool_step_intro l ts i t do t' l' fx :
  ts !! i = Some t → task_pc t ≠ Returned →
  task_step do t l = (t', l', fx) →
  pool_step (l, ts) fx (l', <[i := t']> ts).
Proof.
  intros Hi Hpc Hstep. pose proof (pool_step_task l ts i t do Hi Hpc) as Hp.
  by rewrite Hstep in Hp.
Qed.

Lemma busy_flag_race (do : Request → HttpResult) server l :
  StringBoolCMap.Get (serversUpdating l) server = false →
  pool_steps (l, [spawn server; spawn server])
             [BusySet server; BusySet server]
             (set_serversUpdating
                (StringBoolCMap.Set_ server true
                   (StringBoolCMap.Set_ server true (serversUpdating l))) l,
              [goto (spawn server) AtSnapshot; goto (spawn server) AtSnapshot]).
Proof.
  intros Hfree.
  change [BusySet server; BusySet server]
    with ([] ++ [] ++ [BusySet server] ++ [BusySet server] ++ []).
  eapply pool_steps_step.
  { (* the first push reads the flag *)
    apply (pool_step_intro _ _ 0%nat (spawn server) do); [done | done |].
    unfold task_step. run_simpl. by rewrite Hfree. }
  eapply pool_steps_step.
  { (* so does the second *)
    apply (pool_step_intro _ _ 1%nat (spawn server) do); [done | done |].
    unfold task_step. run_simpl. by rewrite Hfree. }
  eapply pool_steps_step.
  { (* the first sets it *)
    by apply (pool_step_intro _ _ 0%nat (goto (spawn server) AtBusySet) do). }
  eapply pool_steps_step.
  { (* and the second sets it again *)
    by apply (pool_step_intro _ _ 1%nat (goto (spawn server) AtBusySet) do). }
  apply pool_steps_refl.
Qed.


End Properties.

(** * The engine on the small instance *)

(** ** Reaching any version *)




(** ** Where the code parts from the stated claims *)



(** C8, counterexample: the effects of a rebuild in program order.  The
    timer is re-armed with the polling interval and the flag cleared
    before the generator is called, not after the rebuild. *)
Lemma C8_counterexample :
  let fx := effects (update (Demo.world (bytes_of "a") [] Demo.ok200)
                            (started Demo.opts)) in
  fx = [TimerReset (30 * Second); SkipEventsWrite false; Generate;
        Adapt (bytes_of "a")] ∧
  ¬ (∃ before after, fx = before ++ SkipEventsWrite false :: after ∧
                     Generate ∈ before) ∧
  ¬ (∃ before after, fx = before ++ TimerReset (30 * Second) :: after ∧
                     Generate ∈ before).
Proof.
  cbv zeta.
  assert (effects (update (Demo.world (bytes_of "a") [] Demo.ok200)
                          (started Demo.opts))
          = [TimerReset (30 * Second); SkipEventsWrite false; Generate;
             Adapt (bytes_of "a")]) as -> by (vm_compute; reflexivity).
  split; [done |].
  split; intros (before & after & Heq & Hin);
    repeat match goal with
           | Hsplit : _ = ?b ++ _ |- _ =>
             destruct b; cbn in Hsplit; simplify_eq
           end;
    by not_in_list Hin.
Qed.

(** C9, the race on the busy flag: two pushes to [10.0.0.1] run side by
    side on a loader at version 1.  Each reads the flag (line 204) before
    the other sets it (line 209): the flag is set twice with no delete in
    between, both requests are sent, and both pushes are in flight with
    the recorded version still to be written. *)
Lemma C9_two_pushes_in_flight :
  let server := "10.0.0.1" in
  let l := Demo.at_version 1 in
  StringBoolCMap.Get (serversUpdating l) server = false ∧
  ∃ l' req,
    pool_steps (l, [spawn server; spawn server])
               [BusySet server; BusySet server; HttpDo req; HttpDo req]
               (l', [goto (spawn server) (AtVersionSet 1);
                     goto (spawn server) (AtVersionSet 1)]) ∧
    in_flight (goto (spawn server) (AtVersionSet 1)) = true.
Proof.
  cbv zeta. split; [done |].
  pose proof (schedule_steps [0; 1; 0; 1; 0; 1; 0; 1; 0; 1; 0; 1]%nat
                Demo.ok200 (Demo.at_version 1)
                [spawn "10.0.0.1"; spawn "10.0.0.1"]) as Hsteps.
  remember (schedule _ _ _ _) as r eqn:Hr in Hsteps.
  vm_compute in Hr. subst r. cbn [fst snd] in Hsteps.
  do 2 eexists. split; [exact Hsteps | done].
Qed.

(** C4, the recorded version going down.  Nothing keeps an [update] from
    starting while another is running, and the busy test (line 204) and
    the busy set (line 209) are two operations.  On the schedule
    [Overlap.newer_push_records] two pushes to [10.0.0.1] each read the
    flag before the other sets it and both snapshot version 1; one fails
    and returns, a later [update] reaches version 2 and its push records
    2; then the push still in flight gets its 200 and line 253 records
    its snapshot: the version on record for the server goes from 2 to 1,
    below the current version, with no test at the write. *)
Theorem C4_recorded_version_goes_down :
  let l0 := started Demo.opts in
  let σ1 := (play Overlap.newer_push_records (l0, [])).1 in
  let σ2 := (play Overlap.older_push_records σ1).1 in
  StringInt64CMap.Get (serversVersions σ1.1) Overlap.server = 2 ∧
  StringInt64CMap.Get (serversVersions σ2.1) Overlap.server = 1 ∧
  lastVersion σ1.1 = 2 ∧ lastVersion σ2.1 = 2 ∧
  ¬ versions_le σ1.1 σ2.1 ∧
  version_writes
    (play (Overlap.newer_push_records ++ Overlap.older_push_records)
          (l0, [])).2
  = [(Overlap.server, 2); (Overlap.server, 1)].
Proof.
  cbv zeta. split_and!; try (vm_compute; reflexivity).
  intros Hle. specialize (Hle Overlap.server).
  vm_compute in Hle. by apply Hle.
Qed.

(** C6, counterexample: the stored configuration has an admin block that
    listens on [localhost:2019] and enforces the origin.  The body sent
    to [10.0.0.1] decodes to a configuration whose admin block listens on
    [tcp/10.0.0.1:2019] and no longer enforces the origin: the block is
    replaced as a whole (lines 264-266), so the body is not the stored
    configuration with only its listen address changed. *)
Lemma C6_counterexample :
  let r := @update _ _ AdminDemo.library
                   (AdminDemo.world ["10.0.0.1"]) (started Demo.opts) in
  let only_listen_changed : @Config (list byte) bool :=
    {| Admin := Some {| Listen := "tcp/10.0.0.1:2019";
                        admin_other := true |};
       config_other := config_other AdminDemo.stored |} in
  AdminDemo.unmarshal (lastJSONConfig (loader r)) = Ok AdminDemo.stored ∧
  ∃ req sent,
    network_calls (effects r) = [req] ∧
    URL req = "http://10.0.0.1:2019/load" ∧
    AdminDemo.unmarshal (Body req) = Ok sent ∧
    Admin sent = Some {| Listen := "tcp/10.0.0.1:2019";
                         admin_other := false |} ∧
    config_other sent = config_other AdminDemo.stored ∧
    sent ≠ only_listen_changed ∧
    AdminDemo.marshal only_listen_changed ≠ Ok (Body req).
Proof.
  cbv zeta. split; [vm_compute; reflexivity |].
  eexists _, _. split_and!; try (vm_compute; reflexivity).
  - intros Heq. discriminate Heq.
  - intros Heq. vm_compute in Heq. discriminate Heq.
Qed.

(** The listener beside a running [update]: a qualifying event handled
    while the push of an [update] is in flight sets the flag and arms the
    100 ms delay, and that is how things stand when the push has
    returned. *)
Lemma listener_runs_during_an_update :
  let σ := (play Overlap.event_during_update (Demo.at_version 1, [])).1 in
  all_returned σ.2 ∧ skipEvents σ.1 = true ∧
  timer σ.1 = Some (100 * Millisecond).
Proof.
  cbv zeta. split_and!; try (vm_compute; reflexivity).
  vm_compute. by repeat constructor.
Qed.

(** ** The theorems at concrete inputs *)





Lemma C5_witness :
  let w := Demo.world (bytes_of "a") Demo.fleet Demo.ok200 in
  let l := Demo.at_version 1 in
  let req := Demo.request "10.0.0.1" (bytes_of "a") in
  let r := updateServer w "10.0.0.1" l in
  StringBoolCMap.Get (serversUpdating l) "10.0.0.1" = false ∧
  StringInt64CMap.Get (serversVersions l) "10.0.0.1" < lastVersion l ∧
  push_request l "10.0.0.1" = Ok req ∧
  network_calls (effects r) = [req] ∧
  (VersionSet "10.0.0.1" (lastVersion l) ∈ effects r
   ↔ ∃ body, Do w req = Response 200 (Ok body)).
Proof.
  intros w l req r.
  assert (StringBoolCMap.Get (serversUpdating l) "10.0.0.1" = false) as Hfree
    by reflexivity.
  assert (StringInt64CMap.Get (serversVersions l) "10.0.0.1" < lastVersion l)
    as Hbehind by reflexivity.
  assert (push_request l "10.0.0.1" = Ok req) as Hreq by reflexivity.
  pose proof (C5_recorded_iff_status_200 w "10.0.0.1" l req Hfree Hbehind Hreq)
    as (Hcalls & Hiff & _).
  exact (conj Hfree (conj Hbehind (conj Hreq (conj Hcalls Hiff)))).
Defined.

Lemma C6_witness :
  let w := Demo.world (bytes_of "a") Demo.fleet Demo.ok200 in
  let r := update w (started Demo.opts) in
  let req := Demo.request "10.0.0.2" (bytes_of "a") in
  req ∈ network_calls (effects r) ∧
  ∃ server, server ∈ (GenerateCaddyfile w).2 ∧
            is_push_request (lastJSONConfig (loader r)) server req.
Proof.
  intros w r req.
  assert (req ∈ network_calls (effects r)) as Hin.
  { apply list_elem_of_further. apply list_elem_of_here. }
  exact (conj Hin
           (proj1 (C6_request_per_server w (started Demo.opts) (value r)
                     (loader r) (effects r) req
                     (update_is_a_run w (started Demo.opts)) Hin))).
Defined.

Lemma C7_witness :
  let l := Demo.at_version 1 in
  let w := Demo.world (bytes_of "b") Demo.fleet Demo.ok200 in
  let burst := listenEvents [Demo.container_start; Demo.container_die;
                             Demo.service_update] l in
  skipEvents l = false ∧
  update_worthy Demo.container_start = true ∧
  effects burst = [SkipEventsWrite true; TimerReset (100 * Millisecond)] ∧
  debounce_arms (effects burst) = 1%nat ∧
  rebuilds (effects (run ((Received <$> [Demo.container_start; Demo.container_die;
                                         Demo.service_update])
                          ++ [TimerFired w]) l)) = 1%nat.
Proof.
  intros l w burst.
  assert (skipEvents l = false) as Hclear by reflexivity.
  assert (update_worthy Demo.container_start = true) as Hworthy by reflexivity.
  pose proof (C7_one_rebuild_per_burst
                Demo.container_start [Demo.container_die; Demo.service_update]
                w l Hclear Hworthy)
    as (Hfx & _ & _ & _ & Harms & _ & Hone).
  exact (conj Hclear (conj Hworthy (conj Hfx (conj Harms Hone)))).
Defined.

Lemma C8_witness :
  let w := Demo.world (bytes_of "a") Demo.fleet Demo.ok200 in
  let l := started Demo.opts in
  let r := update w l in
  ∃ rest,
    effects r = TimerReset (PollingInterval (options l))
                :: SkipEventsWrite false :: Generate :: rest ∧
    Forall after_prologue rest.
Proof.
  intros w l r.
  exact (C8_rearm_and_clear_come_first w l (value r) (loader r) (effects r)
           (update_is_a_run w l)).
Defined.

Lemma C10_witness :
  let w1 := Demo.world (Some []) Demo.fleet Demo.ok200 in
  let w2 := Demo.world None Demo.fleet Demo.ok200 in
  bytes_content (GenerateCaddyfile w1).1 = [] ∧
  bytes_content (GenerateCaddyfile w2).1 = [] ∧
  ∃ fx l,
    rebuilds_run [w1; w2] (started Demo.opts) fx l ∧
    adapter_calls fx = [] ∧ network_calls fx = [] ∧ lastVersion l = 0.
Proof.
  intros w1 w2.
  pose (r1 := update w1 (started Demo.opts)).
  pose (r2 := update w2 (loader (listenEvents [] (loader r1)))).
  pose proof (rebuilds_run_cons w1 [w2] [] (started Demo.opts)
                (value r1) (loader r1) (effects r1) (loader r2) _
                (update_is_a_run w1 _)
                (rebuilds_run_cons w2 [] [] (loader r1)
                   (value r2) (loader r2) (effects r2) (loader r2) _
                   (update_is_a_run w2 _)
                   (rebuilds_run_nil (loader r2)))) as Hrun.
  assert (Forall (λ w, bytes_content (GenerateCaddyfile w).1 = []) [w1; w2])
    as Hempty by (constructor; [reflexivity | constructor; [reflexivity | constructor]]).
  pose proof (C10_empty_first_output Demo.opts [w1; w2] _ _ Hempty Hrun)
    as (_ & _ & _ & Hac & Hnc & Hv & _).
  exact (conj eq_refl (conj eq_refl
           (ex_intro _ _ (ex_intro _ _ (conj Hrun (conj Hac (conj Hnc Hv))))))).
Defined.

(** * Further properties of the loader *)

Section FurtherProperties.
Context `{GoLibrary C D}.

(** ** Start *)

(** X1: [Start] marks the loader initialized before it connects.  On a
    loader not yet initialized it returns nil and creates the timer with
    delay 0 exactly when both the connection and the ping succeed; on a
    failure it returns the error and creates no timer.  Either way any
    later [Start] returns nil and changes nothing, so a failed [Start]
    is not tried again. *)
Theorem X1_start_runs_once connect ping l :
  initialized l = false →
  initialized (loader (Start connect ping l)) = true ∧
  (value (Start connect ping l) = None ↔ connect = None ∧ ping = None) ∧
  timer (loader (Start connect ping l))
    = match value (Start connect ping l) with
      | Some _ => timer l
      | None => Some 0
      end ∧
  (lastVersion (loader (Start connect ping l)) = lastVersion l ∧
   lastCaddyfile (loader (Start connect ping l)) = lastCaddyfile l ∧
   lastJSONConfig (loader (Start connect ping l)) = lastJSONConfig l ∧
   serversVersions (loader (Start connect ping l)) = serversVersions l ∧
   serversUpdating (loader (Start connect ping l)) = serversUpdating l) ∧
  ∀ connect' ping',
    Start connect' ping' (loader (Start connect ping l))
    = (None, loader (Start connect ping l), []).
Proof.
  intros Hfresh. unfold Start. run_simpl. rewrite Hfresh.
  destruct connect as [e |], ping as [e' |]; run_simpl;
    split_and!; try done.
  all: split; [done | intros [? ?]; done].
Qed.

(** ** The listener *)

(** X2: over any run of events that the listener handles with no
    [update] starting in between (only [update] clears the flag), and
    whatever the flag is at the first of them, the listener arms the timer
    at most once: once, with 100 ms, when the flag is clear and some event
    qualifies, and not at all otherwise.  It never clears the flag
    itself, and it starts no rebuild. *)
Theorem X2_listener_arms_at_most_once events l :
  let armed := negb (skipEvents l) && existsb update_worthy events in
  debounce_arms (effects (listenEvents events l)) = (if armed then 1 else 0)%nat ∧
  effects (listenEvents events l)
    = (if armed then [SkipEventsWrite true; TimerReset (100 * Millisecond)]
       else []) ∧
  skipEvents (loader (listenEvents events l)) = skipEvents l || armed ∧
  timer (loader (listenEvents events l))
    = (if armed then Some (100 * Millisecond) else timer l) ∧
  rebuilds (effects (listenEvents events l)) = 0%nat.
Proof.
  cbv zeta. revert l. induction events as [| event events IH]; intros l.
  - rewrite andb_false_r, orb_false_r. done.
  - unfold listenEvents in *. cbn [forM_ existsb].
    unfold mbind, Run_bind, bind.
    destruct (onEvent_cases event l) as [(Hskip & Hworthy & ->) | (Hnot & ->)].
    + pose proof (listenEvents_suppressed events
                    (set_timer (Some (100 * Millisecond)) (set_skipEvents true l))
                    eq_refl) as Hrest.
      unfold listenEvents in Hrest. rewrite Hrest, Hskip, Hworthy. done.
    + specialize (IH l). destruct (forM_ events onEvent l) as [[[] l1] fx1].
      unfold effects, loader in *. cbn [fst snd app] in *.
      destruct Hnot as [Hskip | Hworthy].
      * rewrite Hskip in *. exact IH.
      * rewrite Hworthy. exact IH.
Qed.

(** X3: the listener writes nothing but the flag and the timer: the
    stored text, the stored configuration, the version and the two maps
    are as before, and it calls neither the adapter nor any server. *)
Theorem X3_listener_touches_flag_and_timer_only events l :
  listener_frame l (loader (listenEvents events l)) ∧
  adapter_calls (effects (listenEvents events l)) = [] ∧
  network_calls (effects (listenEvents events l)) = [].
Proof.
  split; [apply listenEvents_frame | apply listenEvents_calls].
Qed.



(** ** What a rebuild stores and returns *)

(** X5: whatever the schedule of its pushes, [update] leaves the generated
    text as the previous text, also when the adapter rejected it.  It
    replaces the stored configuration, by the adapter's output, exactly
    when the text differs from the previous one and the adapter accepts
    it, and it returns false exactly when the text differs and the adapter
    returns an error.  After a rejected text the stored text and the
    stored configuration therefore belong to different texts. *)
Theorem X5_what_a_rebuild_stores w l b l' fx :
  update_run w l b l' fx →
  let text := (GenerateCaddyfile w).1 in
  lastCaddyfile l' = text ∧
  lastJSONConfig l' = (if accepted w l then (adapter_Adapt w text).1.1
                       else lastJSONConfig l) ∧
  (b = false ↔ bytes_Equal (lastCaddyfile l) text = false ∧
               is_Some (adapter_Adapt w text).2) ∧
  options l' = options l ∧ initialized l' = initialized l.
Proof.
  intros Hrun. cbv zeta. unfold accepted.
  destruct (update_run_cases _ _ _ _ _ Hrun)
    as (pushes & _ & _ & _ &
        [(Heq & -> & _ & Hfr)
        | [(Hne & Herr & -> & _ & _ & ->) | (Hne & Hnone & -> & _ & Hfr)]]).
  - rewrite Heq. destruct Hfr as (Ho & Hi & _ & _ & Hc & Hj & _).
    split_and!; [exact Hc | exact Hj | | exact Ho | exact Hi].
    split; [done | intros [? _]; congruence].
  - rewrite Hne. destruct Herr as [e He]. rewrite He.
    by split_and!.
  - rewrite Hne, Hnone. destruct Hfr as (Ho & Hi & _ & _ & Hc & Hj & _).
    split_and!; [exact Hc | exact Hj | | exact Ho | exact Hi].
    split; [done | intros [_ [? ?]]; congruence].
Qed.

Lemma forM__ext {A} (xs : list A) (f g : A → Run unit) l :
  (∀ x l0, f x l0 = g x l0) → forM_ xs f l = forM_ xs g l.
Proof.
  intros Hfg. revert l. induction xs as [| x xs IH]; intros l; [done |].
  cbn [forM_]. unfold mbind, Run_bind, bind. rewrite Hfg.
  destruct (g x l) as [[[] l1] fx1]. by rewrite IH.
Qed.

(** X6: the warnings of the adapter are only logged.  Two runs of
    [update] from the same loader, on the same generated text, the same
    configuration and error from the adapter and the same answers from the
    servers, but different warnings, end in the same loader with the same
    result and the same effects. *)
Theorem X6_warnings_change_nothing w w' l :
  same_but_warnings w w' → update w l = update w' l.
Proof.
  intros (Hgen & Hadapt & Hdo).
  assert (update_diff w l = update_diff w' l) as Hdiff.
  { unfold update_diff. rewrite Hgen.
    destruct (GenerateCaddyfile w') as [caddyfile servers]. run_simpl.
    destruct (negb (bytes_Equal (lastCaddyfile l) caddyfile)); [| done].
    destruct (Hadapt caddyfile) as [Hjson Herr].
    destruct (adapter_Adapt w caddyfile) as [[configJSON warn] err],
             (adapter_Adapt w' caddyfile) as [[configJSON' warn'] err'].
    cbn in *. by subst. }
  unfold update, mbind, Run_bind, bind. rewrite Hdiff.
  destruct (update_diff w' l) as [[[servers |] l1] fx1]; [| done].
  rewrite (forM__ext servers (updateServer w) (updateServer w')); [done |].
  intros server l0. rewrite !updateServer_cases.
  repeat case_match; try done; congruence.
Qed.

(** ** The two maps during a fan-out *)

Lemma Get_Set_busy (m : gmap string bool) k v k' :
  StringBoolCMap.Get (StringBoolCMap.Set_ k v m) k' =
  if decide (k = k') then v else StringBoolCMap.Get m k'.
Proof.
  unfold StringBoolCMap.Get, StringBoolCMap.Set_.
  rewrite lookup_insert. by case_decide.
Qed.

Lemma Get_Delete_busy (m : gmap string bool) k k' :
  StringBoolCMap.Get (StringBoolCMap.Delete k m) k' =
  if decide (k = k') then false else StringBoolCMap.Get m k'.
Proof.
  unfold StringBoolCMap.Get, StringBoolCMap.Delete.
  rewrite lookup_delete. by case_decide.
Qed.

(** A step of a push writes the maps at its own server only. *)
Lemma task_step_elsewhere do t l server :
  server ≠ task_server t →
  serversVersions (loader (task_step do t l)) !! server
    = serversVersions l !! server ∧
  serversUpdating (loader (task_step do t l)) !! server
    = serversUpdating l !! server.
Proof.
  unfold StringInt64CMap.Set_, StringBoolCMap.Set_, StringBoolCMap.Delete.
  task_cases t; intros Hne; try done;
    unfold StringInt64CMap.Set_, StringBoolCMap.Set_, StringBoolCMap.Delete;
    by rewrite ?lookup_insert_ne, ?lookup_delete_ne.
Qed.

Lemma pool_step_servers σ fx σ' :
  pool_step σ fx σ' → task_server <$> σ'.2 = task_server <$> σ.2.
Proof.
  intros [l ts i t do Hi Hpc]. cbn.
  rewrite list_fmap_insert, task_step_server.
  apply list_insert_id. by rewrite list_lookup_fmap, Hi.
Qed.

Lemma pool_steps_elsewhere σ fx σ' server :
  pool_steps σ fx σ' →
  server ∉ task_server <$> σ.2 →
  serversVersions σ'.1 !! server = serversVersions σ.1 !! server ∧
  serversUpdating σ'.1 !! server = serversUpdating σ.1 !! server.
Proof.
  induction 1 as [σ | σ1 fx1 σ2 fx2 σ3 Hstep _ IH]; intros Hout; [done |].
  pose proof (pool_step_servers _ _ _ Hstep) as Hsrv.
  destruct IH as [Hsv Hbusy]; [by rewrite Hsrv |].
  rewrite Hsv, Hbusy. destruct Hstep as [l ts i t do Hi Hpc]. cbn in *.
  apply task_step_elsewhere. intros ->. apply Hout.
  apply list_elem_of_fmap. exists t. split; [done |].
  by eapply list_elem_of_lookup_2.
Qed.

Lemma update_diff_state w l :
  serversVersions (loader (update_diff w l)) = serversVersions l ∧
  serversUpdating (loader (update_diff w l)) = serversUpdating l ∧
  lastVersion (loader (update_diff w l))
    = (if accepted w l then wrap64 (lastVersion l + 1) else lastVersion l) ∧
  rebuilds (effects (update_diff w l)) = 1%nat ∧
  ∀ servers, value (update_diff w l) = Some servers →
             servers = (GenerateCaddyfile w).2.
Proof.
  unfold accepted.
  destruct (bytes_Equal (lastCaddyfile l) (GenerateCaddyfile w).1) eqn:Heq;
    [| destruct (adapter_Adapt w (GenerateCaddyfile w).1).2 as [e |] eqn:Herr].
  - rewrite (update_diff_unchanged w l Heq). split_and!; try done.
    intros servers. unfold value. cbn. congruence.
  - rewrite (update_diff_rejected w l e Heq Herr). by split_and!.
  - rewrite (update_diff_accepted w l Heq Herr). split_and!; try done.
    intros servers. unfold value. cbn. congruence.
Qed.

(** The two ways a run of [update] can go, with its goroutines. *)
Lemma update_run_pool w l b l' fx :
  update_run w l b l' fx →
  (b = false ∧ l' = loader (update_diff w l) ∧
   fx = effects (update_diff w l))
  ∨ (∃ ts pushes,
        b = true ∧
        pool_steps (loader (update_diff w l),
                    spawn <$> (GenerateCaddyfile w).2) pushes (l', ts) ∧
        all_returned ts ∧ fx = effects (update_diff w l) ++ pushes).
Proof.
  intros Hrun.
  destruct Hrun as [Hnone | servers l1 ts pushes Hsome Hsteps Hret];
    [by left |].
  right. exists ts, pushes.
  destruct (update_diff_state w l) as (_ & _ & _ & _ & Hservers).
  rewrite <- (Hservers servers Hsome). by split_and!.
Qed.

(** X7: a rebuild leaves alone every server the generator did not list:
    whatever the schedule of the pushes, the version on record and the
    busy flag of such a server are after [update] what they were before.
    An entry of a server that left the fleet is never removed nor
    changed. *)
Theorem X7_unlisted_servers_untouched w l b l' fx server :
  update_run w l b l' fx →
  server ∉ (GenerateCaddyfile w).2 →
  serversVersions l' !! server = serversVersions l !! server ∧
  serversUpdating l' !! server = serversUpdating l !! server ∧
  StringInt64CMap.Get (serversVersions l') server
    = StringInt64CMap.Get (serversVersions l) server ∧
  StringBoolCMap.Get (serversUpdating l') server
    = StringBoolCMap.Get (serversUpdating l) server.
Proof.
  intros Hrun Hout.
  destruct (update_diff_state w l) as (Hsv & Hbusy & _).
  assert (serversVersions l' !! server = serversVersions l !! server ∧
          serversUpdating l' !! server = serversUpdating l !! server)
    as [Hv Hb].
  { destruct (update_run_pool _ _ _ _ _ Hrun)
      as [(_ & -> & _) | (ts & pushes & _ & Hsteps & _)].
    - by rewrite Hsv, Hbusy.
    - destruct (pool_steps_elsewhere _ _ _ server Hsteps) as [Hv Hb].
      + cbn. by rewrite spawned_servers.
      + cbn in *. by rewrite Hv, Hb, Hsv, Hbusy. }
  unfold StringInt64CMap.Get, StringBoolCMap.Get. by rewrite Hv, Hb.
Qed.

Lemma task_step_busy do t l server :
  is_Some (serversUpdating (loader (task_step do t l)) !! server) →
  (task_server t = server ∧ in_flight (value (task_step do t l)) = true)
  ∨ (is_Some (serversUpdating l !! server) ∧
     (task_server t = server → in_flight t = true →
      in_flight (value (task_step do t l)) = true)).
Proof.
  task_cases t; intros Hsome; try (by right).
  - (* line 209 *)
    unfold StringBoolCMap.Set_ in Hsome.
    destruct (decide (server0 = server)) as [-> | Hne]; [by left |].
    rewrite lookup_insert_ne in Hsome by done. by right.
  - (* the deferred Delete *)
    unfold StringBoolCMap.Delete in Hsome.
    destruct (decide (server0 = server)) as [-> | Hne].
    + rewrite lookup_delete_eq in Hsome. by destruct Hsome.
    + rewrite lookup_delete_ne in Hsome by done. by right.
Qed.

Lemma pool_step_busy_held σ fx σ' :
  busy_held σ → pool_step σ fx σ' → busy_held σ'.
Proof.
  intros Hheld Hstep. destruct Hstep as [l ts i t do Hi Hpc].
  intros server Hsome. cbn in *.
  assert (<[i := value (task_step do t l)]> ts !! i
          = Some (value (task_step do t l))) as Hnew.
  { apply list_lookup_insert_eq. by eapply lookup_lt_Some. }
  destruct (task_step_busy do t l server Hsome) as [[Hsrv Hfl] | [Hold Hkeep]].
  - exists i, (value (task_step do t l)).
    by rewrite task_step_server.
  - destruct (Hheld server Hold) as (j & tj & Hj & Hsj & Hfj). cbn in Hj.
    destruct (decide (j = i)) as [-> | Hne].
    + simplify_eq. exists i, (value (task_step do t l)).
      rewrite task_step_server. split_and!; [done | done | by apply Hkeep].
    + exists j, tj. by rewrite list_lookup_insert_ne.
Qed.

Lemma pool_steps_busy_held σ fx σ' :
  busy_held σ → pool_steps σ fx σ' → busy_held σ'.
Proof.
  intros Hheld Hsteps.
  induction Hsteps as [σ | σ1 fx1 σ2 fx2 σ3 Hstep _ IH]; [done |].
  apply IH. by eapply pool_step_busy_held.
Qed.

Lemma move_busy_held m σ : busy_held σ → busy_held (move m σ).1.
Proof.
  destruct σ as [l ts]. intros Hheld. destruct m as [i do | event | w]; cbn.
  - destruct (ts !! i) as [t |] eqn:Hi; [| done].
    destruct (task_step do t l) as [[t' l'] fx] eqn:Hstep.
    destruct (task_pc t) eqn:Hpc; try done;
      (eapply pool_step_busy_held; [exact Hheld |];
       eapply pool_step_intro; [exact Hi | congruence | exact Hstep]).
  - pose proof (onEvent_frame event l) as (_ & _ & _ & _ & _ & _ & Hbusy).
    destruct (onEvent event l) as [[u l'] fx]. unfold loader in Hbusy.
    cbn in *. intros server Hsome. cbn in *. rewrite Hbusy in Hsome.
    by apply Hheld.
  - destruct (update_diff_state w l) as (_ & Hbusy & _).
    destruct (update_diff w l) as [[servers l'] fx]. unfold loader in Hbusy.
    cbn in *. intros server Hsome. cbn in *. rewrite Hbusy in Hsome.
    destruct (Hheld server Hsome) as (i & t & Hi & Hrest).
    exists i, t. split; [| done]. cbn in *. by apply lookup_app_l_Some.
Qed.

Lemma play_busy_held moves σ : busy_held σ → busy_held (play moves σ).1.
Proof.
  revert σ. induction moves as [| m moves IH]; intros σ Hheld; [done |].
  cbn. pose proof (move_busy_held m σ Hheld) as Hm.
  destruct (move m σ) as [σ1 fx1]. pose proof (IH σ1 Hm) as Hp.
  by destruct (play moves σ1) as [σ2 fx2].
Qed.

(** X8: every entry of the busy map belongs to a push that has not
    returned yet.  From a loader with an empty busy map, whatever is
    going on side by side ([update]s starting while others run, events
    handled by the listener, the steps of all pushes in any order, also
    when two pushes set the same flag), each server with an entry in the
    map has a push in flight; so whenever all pushes started so far have
    returned the map is empty and no server reads as busy.  A push
    removes the entry of its server by [Delete] on every path that set
    it. *)
Theorem X8_busy_entries_belong_to_pushes moves l :
  serversUpdating l = ∅ →
  busy_held (play moves (l, [])).1 ∧
  (all_returned (play moves (l, [])).1.2 →
   serversUpdating (play moves (l, [])).1.1 = ∅ ∧
   flags_clear (play moves (l, [])).1.1).
Proof.
  intros Hempty.
  assert (busy_held (l, [])) as Hstart.
  { intros server. cbn. rewrite Hempty, lookup_empty. by intros [? ?]. }
  pose proof (play_busy_held moves _ Hstart) as Hheld.
  split; [done |]. intros Hret.
  assert (serversUpdating (play moves (l, [])).1.1 = ∅) as Hend.
  { apply map_empty. intros server.
    destruct (serversUpdating (play moves (l, [])).1.1 !! server)
      as [flag |] eqn:Hflag; [| done].
    destruct (Hheld server) as (i & t & Hi & _ & Hfl); [by rewrite Hflag |].
    unfold all_returned in Hret.
    pose proof (Forall_lookup_1 _ _ _ _ Hret Hi) as Hpc.
    unfold in_flight in Hfl. by rewrite Hpc in Hfl. }
  split; [done |]. intros server.
  unfold StringBoolCMap.Get. by rewrite Hend, lookup_empty.
Qed.

(** ** Recorded versions and the current version *)





(** ** A fleet that is current *)





(** ** One push taken alone *)

Lemma updateServer_summary w server l :
  frame l (loader (updateServer w server l)) ∧
  versions_le l (loader (updateServer w server l)) ∧
  (∀ server', server' ≠ server →
     serversVersions (loader (updateServer w server l)) !! server'
       = serversVersions l !! server' ∧
     serversUpdating (loader (updateServer w server l)) !! server'
       = serversUpdating l !! server') ∧
  (StringBoolCMap.Get (serversUpdating l) server = false →
   serversUpdating (loader (updateServer w server l))
     = delete server (serversUpdating l)).
Proof.
  rewrite updateServer_cases.
  assert (∀ m : gmap string bool,
            StringBoolCMap.Delete server (StringBoolCMap.Set_ server true m)
            = delete server m) as Hdel.
  { intros m. unfold StringBoolCMap.Delete, StringBoolCMap.Set_.
    apply delete_insert_eq. }
  destruct (StringBoolCMap.Get (serversUpdating l) server) eqn:Hbusy.
  { split_and!; [apply frame_refl | apply versions_le_refl | done | done]. }
  assert (∀ l0, frame l0 (unflagged server l0)) as Hframe
    by (intros l0; by repeat split).
  assert (∀ l0 server', server' ≠ server →
            serversUpdating (unflagged server l0) !! server'
            = serversUpdating l0 !! server') as Hother.
  { intros l0 server' Hne. unfold unflagged. cbn. rewrite Hdel.
    by rewrite lookup_delete_ne. }
  repeat case_match; unfold loader; cbn [fst snd];
    (split_and!;
     [ try apply Hframe | | | intros _; unfold unflagged; cbn; apply Hdel ]).
  all: try (intros server'; cbn; lia).
  all: try (intros server' Hne; split; [done | by apply Hother]).
  - by repeat split.
  - intros server'. cbn. rewrite Get_Set_version.
    rewrite bool_decide_eq_false in *. case_decide; subst; lia.
  - intros server' Hne. split; [| by rewrite Hother].
    cbn. unfold StringInt64CMap.Set_. by rewrite lookup_insert_ne.
Qed.

(** X15: the busy flag around one push.  A push that finds the flag of
    its server set returns at once: no effect, the loader as it was.  A
    push that finds it clear sets it first and deletes it last on every
    path, with no other write to the flag in between, and the entry is
    removed rather than set to false.  The flags of the other servers are
    never written. *)
Theorem X15_busy_flag_around_a_push w server l :
  (StringBoolCMap.Get (serversUpdating l) server = true →
   updateServer w server l = (tt, l, [])) ∧
  (StringBoolCMap.Get (serversUpdating l) server = false →
   serversUpdating (loader (updateServer w server l))
     = delete server (serversUpdating l) ∧
   ∃ middle,
     effects (updateServer w server l)
       = BusySet server :: middle ++ [BusyDelete server] ∧
     Forall (λ e, e ≠ BusySet server ∧ e ≠ BusyDelete server) middle) ∧
  (∀ server', server' ≠ server →
     serversUpdating (loader (updateServer w server l)) !! server'
       = serversUpdating l !! server').
Proof.
  destruct (updateServer_summary w server l) as (_ & _ & Hother & Hown).
  split_and!.
  - apply updateServer_busy.
  - intros Hfree. split; [by apply Hown |].
    destruct (updateServer_flag w server l Hfree) as (middle & Hfx & Hmid & _).
    by exists middle.
  - intros server' Hne. by apply Hother.
Qed.

Lemma push_request_error l server e :
  json_Unmarshal (lastJSONConfig l) = Err e ∨
  url_Parse ("http://" +:+ server +:+ ":2019/load") = Some e →
  ∃ e', push_request l server = Err e'.
Proof.
  unfold push_request, addAdminListen, http_NewRequest.
  intros [-> | Hurl]; [by exists e |].
  destruct (json_Unmarshal _) as [config | e0]; [| by exists e0].
  destruct (json_Marshal _) as [postBody | e0]; [| by exists e0].
  rewrite Hurl. by exists e.
Qed.

(** X10: a push whose request cannot be built sends nothing.  When the
    stored configuration does not decode, or the URL made from the server
    address does not parse, a push to that server makes no network call
    and leaves the recorded versions as they were; it still releases the
    busy flag it set.  When the server is free and behind, so that the
    push gets as far as building the request, all it does is set the flag
    and delete it again. *)
Theorem X10_unbuildable_request_sends_nothing w server l e :
  json_Unmarshal (lastJSONConfig l) = Err e ∨
  url_Parse ("http://" +:+ server +:+ ":2019/load") = Some e →
  network_calls (effects (updateServer w server l)) = [] ∧
  serversVersions (loader (updateServer w server l)) = serversVersions l ∧
  (StringBoolCMap.Get (serversUpdating l) server = false →
   StringBoolCMap.Get (serversUpdating (loader (updateServer w server l)))
                      server = false) ∧
  (StringBoolCMap.Get (serversUpdating l) server = false →
   StringInt64CMap.Get (serversVersions l) server < lastVersion l →
   (∃ e', push_request l server = Err e') ∧
   effects (updateServer w server l) = [BusySet server; BusyDelete server]).
Proof.
  intros Hcause. destruct (push_request_error l server e Hcause) as [e' Herr].
  split_and!.
  - rewrite updateServer_cases, Herr. by repeat case_match.
  - rewrite updateServer_cases, Herr. by repeat case_match.
  - intros Hfree.
    by destruct (updateServer_flag w server l Hfree) as (? & _ & _ & ?).
  - intros Hfree Hbehind. split; [by exists e' |].
    rewrite updateServer_cases, Hfree, Herr.
    destruct (bool_decide _) eqn:Hge; [| done].
    apply bool_decide_eq_true_1 in Hge. lia.
Qed.

(** X11: a delivery that failed is tried again by the next push, with or
    without a new version.  When a push reaches the network and the call
    fails (transport error, unreadable body or a status other than 200),
    the server stays behind with its flag released, so the next push to
    it, whatever the world then answers, sends the same request again;
    if that one succeeds the server is on record with the version. *)
Theorem X11_failed_delivery_is_retried w w' server l req :
  StringBoolCMap.Get (serversUpdating l) server = false →
  StringInt64CMap.Get (serversVersions l) server < lastVersion l →
  push_request l server = Ok req →
  push_succeeded (Do w req) = false →
  let failed := updateServer w server l in
  let again := updateServer w' server (loader failed) in
  network_calls (effects failed) = [req] ∧
  serversVersions (loader failed) = serversVersions l ∧
  network_calls (effects again) = [req] ∧
  (push_succeeded (Do w' req) = true →
   StringInt64CMap.Get (serversVersions (loader again)) server = lastVersion l).
Proof.
  intros Hfree Hbehind Hreq Hfail. cbv zeta.
  assert (updateServer w server l
          = (tt, unflagged server l,
             [BusySet server; HttpDo req; BusyDelete server])) as ->.
  { rewrite updateServer_cases, Hfree, Hreq, Hfail.
    by rewrite bool_decide_eq_false_2 by lia. }
  unfold loader, effects. cbn [fst snd].
  assert (StringBoolCMap.Get (serversUpdating (unflagged server l)) server
          = false) as Hfree'.
  { unfold unflagged. cbn. rewrite Get_Delete_busy. by case_decide. }
  assert (push_request (unflagged server l) server = Ok req) as Hreq'.
  { rewrite <- Hreq. by apply push_request_frame. }
  rewrite updateServer_cases, Hfree', Hreq'.
  change (serversVersions (unflagged server l)) with (serversVersions l).
  change (lastVersion (unflagged server l)) with (lastVersion l).
  rewrite bool_decide_eq_false_2 by lia.
  destruct (push_succeeded (Do w' req)); cbn [fst snd].
  - split_and!; try done. intros _. cbn.
    rewrite Get_Set_version. by case_decide.
  - by split_and!.
Qed.

(** ** The pushes of one rebuild, one after the other *)

Lemma Get_lookup_version (m m' : gmap string Z) k :
  m' !! k = m !! k → StringInt64CMap.Get m' k = StringInt64CMap.Get m k.
Proof. unfold StringInt64CMap.Get. by intros ->. Qed.

Lemma Get_lookup_busy (m m' : gmap string bool) k :
  m' !! k = m !! k → StringBoolCMap.Get m' k = StringBoolCMap.Get m k.
Proof. unfold StringBoolCMap.Get. by intros ->. Qed.

Lemma fanout_reaches w servers l server req :
  server ∈ servers →
  StringBoolCMap.Get (serversUpdating l) server = false →
  StringInt64CMap.Get (serversVersions l) server < lastVersion l →
  push_request l server = Ok req →
  req ∈ network_calls (effects (forM_ servers (updateServer w) l)).
Proof.
  revert l. induction servers as [| first servers IH];
    intros l Hin Hfree Hbehind Hreq; [by apply elem_of_nil in Hin |].
  cbn [forM_]. unfold mbind, Run_bind, bind.
  destruct (decide (first = server)) as [-> | Hne].
  - rewrite updateServer_cases, Hfree, Hreq.
    rewrite bool_decide_eq_false_2 by lia.
    destruct (push_succeeded (Do w req));
      destruct (forM_ servers (updateServer w) _) as [[[] l2] fx2];
      unfold effects, network_calls; cbn;
      apply list_elem_of_here.
  - apply elem_of_cons in Hin as [-> | Hin]; [done |].
    destruct (updateServer_summary w first l) as (Hfr & _ & Hother & _).
    destruct (Hother server (not_eq_sym Hne)) as [Hsv Hbusy].
    destruct (updateServer w first l) as [[[] l1] fx1].
    unfold loader in *. cbn [fst snd] in *.
    specialize (IH l1 Hin).
    destruct (forM_ servers (updateServer w) l1) as [[[] l2] fx2].
    unfold effects in *. cbn [fst snd] in *.
    rewrite network_calls_app, elem_of_app. right. apply IH.
    + by rewrite (Get_lookup_busy _ _ _ Hbusy).
    + rewrite (Get_lookup_version _ _ _ Hsv).
      destruct Hfr as (_ & _ & _ & _ & _ & _ & ->). done.
    + rewrite <- Hreq. apply push_request_frame. apply Hfr.
Qed.

(** X12: a server that is behind is pushed to also when the text did not
    change.  If the generated text equals the previous one, and a listed
    server whose flag is clear is on record with less than the current
    version (a server that has just joined, or one whose last delivery
    failed), then [update] returns true, calls no adapter, and sends that
    server the request built from the stored configuration. *)
Theorem X12_behind_server_is_pushed w l server req :
  bytes_Equal (lastCaddyfile l) (GenerateCaddyfile w).1 = true →
  server ∈ (GenerateCaddyfile w).2 →
  StringBoolCMap.Get (serversUpdating l) server = false →
  StringInt64CMap.Get (serversVersions l) server < lastVersion l →
  push_request l server = Ok req →
  value (update w l) = true ∧
  adapter_calls (effects (update w l)) = [] ∧
  req ∈ network_calls (effects (update w l)).
Proof.
  intros Heq Hin Hfree Hbehind Hreq.
  pose proof (update_is_a_run w l) as Hrun.
  destruct (update_run_cases _ _ _ _ _ Hrun)
    as (pushes & Hfx & _ & _ &
        [(_ & Hb & Hpushes & _) | [(? & _) | (? & _)]]); try congruence.
  destruct (push_effects_quiet _ Hfx) as (Hquiet & _).
  split_and!; [done | by rewrite Hpushes, adapter_calls_app, Hquiet |].
  unfold update, mbind, Run_bind, bind.
  rewrite (update_diff_unchanged w l Heq).
  pose proof (fanout_reaches w (GenerateCaddyfile w).2
                (after_generate (GenerateCaddyfile w).1 l) server req
                Hin Hfree Hbehind) as Hreach.
  destruct (forM_ _ _ _) as [[[] l2] fx2].
  unfold effects in *. cbn [fst snd] in *.
  unfold ret. cbn [fst snd].
  rewrite network_calls_app. apply elem_of_app. right.
  rewrite app_nil_r. apply Hreach.
  rewrite <- Hreq. by apply push_request_frame.
Qed.



End FurtherProperties.

(** ** The further properties at concrete inputs *)

Lemma X1_witness :
  let l := CreateDockerLoader Demo.opts in
  let failed := Start (Some "cannot connect to the Docker daemon") None l in
  initialized l = false ∧
  initialized (loader failed) = true ∧
  ∀ connect' ping',
    Start connect' ping' (loader failed) = (None, loader failed, []).
Proof.
  intros l failed.
  pose proof (X1_start_runs_once
                (Some "cannot connect to the Docker daemon") None l eq_refl)
    as (Hinit & _ & _ & _ & Hagain).
  exact (conj eq_refl (conj Hinit Hagain)).
Defined.

Lemma X5_witness :
  let w := Demo.world (bytes_of "bad") Demo.fleet Demo.ok200 in
  let l := Demo.at_version 1 in
  let r := update w l in
  lastCaddyfile (loader r) = bytes_of "bad" ∧
  lastJSONConfig (loader r) = lastJSONConfig l.
Proof.
  intros w l r.
  pose proof (X5_what_a_rebuild_stores w l (value r) (loader r) (effects r)
                (update_is_a_run w l))
    as (Htext & Hjson & _).
  exact (conj Htext Hjson).
Defined.

Lemma X6_witness :
  let w := Demo.world (bytes_of "a") Demo.fleet Demo.ok200 in
  let w' := {| GenerateCaddyfile := (bytes_of "a", Demo.fleet);
               adapter_Adapt := λ c, ((Demo.adapt c).1.1,
                                      ["deprecated directive"],
                                      (Demo.adapt c).2);
               Do := Demo.ok200 |} in
  same_but_warnings w w' ∧
  update w (started Demo.opts) = update w' (started Demo.opts).
Proof.
  intros w w'.
  assert (same_but_warnings w w') as Hsame.
  { split; [reflexivity |]. split; [| reflexivity].
    intros c. split; reflexivity. }
  exact (conj Hsame (X6_warnings_change_nothing w w' (started Demo.opts) Hsame)).
Defined.

Lemma X7_witness :
  let w := Demo.world (bytes_of "a") Demo.fleet Demo.ok200 in
  let l := started Demo.opts in
  let r := update w l in
  ("10.0.0.9" ∉ (GenerateCaddyfile w).2) ∧
  serversVersions (loader r) !! "10.0.0.9" = serversVersions l !! "10.0.0.9".
Proof.
  intros w l r.
  assert ("10.0.0.9" ∉ (GenerateCaddyfile w).2) as Hout.
  { intros Hin. apply elem_of_cons in Hin as [Heq | Hin]; [discriminate Heq |].
    apply elem_of_cons in Hin as [Heq | Hin]; [discriminate Heq |].
    exact (proj1 (elem_of_nil _) Hin). }
  pose proof (X7_unlisted_servers_untouched w l (value r) (loader r)
                (effects r) "10.0.0.9" (update_is_a_run w l) Hout)
    as (Hsv & _).
  exact (conj Hout Hsv).
Defined.

Lemma X8_witness :
  let l := started Demo.opts in
  let moves := Overlap.newer_push_records ++ Overlap.older_push_records
               ++ Overlap.pushes_return in
  serversUpdating l = ∅ ∧
  all_returned (play moves (l, [])).1.2 ∧
  serversUpdating (play moves (l, [])).1.1 = ∅.
Proof.
  intros l moves.
  assert (all_returned (play moves (l, [])).1.2) as Hret
    by (vm_compute; repeat constructor).
  pose proof (X8_busy_entries_belong_to_pushes moves l eq_refl)
    as (_ & Hend).
  exact (conj eq_refl (conj Hret (proj1 (Hend Hret)))).
Defined.


Lemma X10_witness :
  let w := Overlap.undecodable in
  let l := loader (update_diff w (started Demo.opts)) in
  let r := updateServer w Overlap.server l in
  json_Unmarshal (lastJSONConfig l) = Err "unexpected end of JSON input" ∧
  StringBoolCMap.Get (serversUpdating l) Overlap.server = false ∧
  StringInt64CMap.Get (serversVersions l) Overlap.server < lastVersion l ∧
  network_calls (effects r) = [] ∧
  serversVersions (loader r) = serversVersions l ∧
  effects r = [BusySet Overlap.server; BusyDelete Overlap.server].
Proof.
  intros w l r.
  assert (StringInt64CMap.Get (serversVersions l) Overlap.server
          < lastVersion l) as Hbehind by reflexivity.
  pose proof (X10_unbuildable_request_sends_nothing
                w Overlap.server l "unexpected end of JSON input"
                (or_introl eq_refl))
    as (Hnet & Hsv & _ & Hfx).
  exact (conj eq_refl (conj eq_refl (conj Hbehind (conj Hnet (conj Hsv
           (proj2 (Hfx eq_refl Hbehind))))))).
Defined.

Lemma X11_witness :
  let w := Demo.world (bytes_of "a") Demo.fleet Demo.refused in
  let w' := Demo.world (bytes_of "a") Demo.fleet Demo.ok200 in
  let l := Demo.at_version 1 in
  let req := Demo.request "10.0.0.1" (bytes_of "a") in
  let failed := updateServer w "10.0.0.1" l in
  let again := updateServer w' "10.0.0.1" (loader failed) in
  push_succeeded (Do w req) = false ∧
  network_calls (effects failed) = [req] ∧
  network_calls (effects again) = [req].
Proof.
  intros w w' l req failed again.
  pose proof (X11_failed_delivery_is_retried w w' "10.0.0.1" l req
                eq_refl eq_refl eq_refl eq_refl)
    as (Hfirst & _ & Hsecond & _).
  exact (conj eq_refl (conj Hfirst Hsecond)).
Defined.

Lemma X12_witness :
  let w := Demo.world (bytes_of "a") Demo.fleet Demo.ok200 in
  let l := Demo.at_version 1 in
  let req := Demo.request "10.0.0.2" (bytes_of "a") in
  bytes_Equal (lastCaddyfile l) (GenerateCaddyfile w).1 = true ∧
  StringInt64CMap.Get (serversVersions l) "10.0.0.2" < lastVersion l ∧
  adapter_calls (effects (update w l)) = [] ∧
  req ∈ network_calls (effects (update w l)).
Proof.
  intros w l req.
  pose proof (X12_behind_server_is_pushed w l "10.0.0.2" req eq_refl
                (list_elem_of_further _ _ _ (list_elem_of_here _ _))
                eq_refl eq_refl eq_refl)
    as (_ & Hac & Hin).
  exact (conj eq_refl (conj eq_refl (conj Hac Hin))).
Defined.



Lemma X15_witness :
  let w := Demo.world (bytes_of "a") Demo.fleet Demo.ok200 in
  let l := Demo.at_version 1 in
  StringBoolCMap.Get (serversUpdating l) "10.0.0.1" = false ∧
  serversUpdating (loader (updateServer w "10.0.0.1" l))
    = delete "10.0.0.1" (serversUpdating l).
Proof.
  intros w l.
  pose proof (X15_busy_flag_around_a_push w "10.0.0.1" l)
    as (_ & Hclear & _).
  exact (conj eq_refl (proj1 (Hclear eq_refl))).
Defined.
